(** * simple-module-logger: a shallow embedding of [src/logger.ts]

    The development follows the source file top to bottom:
    - JavaScript values and the object heap (errors, plain objects, arrays);
    - the error inspector ([formatErrorMessage], [getErrorCauses]);
    - stack capture ([captureNativeStack]);
    - the [Logger] class: construction, prefix building, stream routing,
      JSON record building and stringification, and [logInternal];
    - the level methods, the hash of [color.ts], the durations of
      [duration.ts] and the [Timer] class;
    - the properties of the specification, one theorem per claim, and
      further properties of the code.

    Modelling conventions.
    - A JavaScript string is a Rocq [string], one [ascii] per code unit.
    - An object has an identity: it lives in a heap (a list of objects, a
      reference is an index).  Objects created by the logger itself (the
      JSON record, the serialized errors) are allocated at the end of the
      heap, so they are never reachable from the caller's values.
    - Numbers are the integers plus the non-finite values.
    - Engine services the code calls but does not define ([util.inspect],
      the clock, the [stack] of a freshly created [Error], the process
      environment, [moduleToTruecolor]) are fields of an environment
      record [Env]. *)

From Stdlib Require Import ZArith QArith Qround Ascii.
From stdpp Require Import base decidable option list strings gmap pretty.

Open Scope string_scope.
Open Scope list_scope.

(** ** Strings *)

Module Str.

(** The double quote, the escape character and the backslash, built from
    their codes. *)
Definition dquote : string := String "034"%char EmptyString.
Definition esc : string := String "027"%char EmptyString.
Definition backslash : string := String "092"%char EmptyString.
Definition newline : ascii := "010"%char.
Definition nl : string := String newline EmptyString.

(** [s.split("\n")]: always at least one piece. *)
Fixpoint split (sep : ascii) (s : string) : list string :=
  match s with
  | EmptyString => [EmptyString]
  | String c rest =>
      if Ascii.eqb c sep then EmptyString :: split sep rest
      else match split sep rest with
           | [] => [String c EmptyString]
           | w :: ws => String c w :: ws
           end
  end.

(** [pieces.join(sep)] on an array of strings. *)
Definition join (sep : string) (pieces : list string) : string :=
  String.concat sep pieces.

(** Truthiness of a string: non-empty. *)
Definition truthy (s : string) : bool := negb (String.eqb s "").

(** [s || d] on strings. *)
Definition orElse (s d : string) : string := if truthy s then s else d.

(** White space and line terminators removed by [trim], among the code
    units below 256. *)
Definition isWhiteSpace (c : ascii) : bool :=
  let n := nat_of_ascii c in
  (Nat.leb 9 n && Nat.leb n 13) || Nat.eqb n 32 || Nat.eqb n 160.

Fixpoint allWhiteSpace (s : string) : bool :=
  match s with
  | EmptyString => true
  | String c rest => isWhiteSpace c && allWhiteSpace rest
  end.

(** Truthiness of [line.trim()]. *)
Definition trimTruthy (line : string) : bool := negb (allWhiteSpace line).

(** [s.padEnd(n)]: pad with spaces on the right up to length [n]. *)
Definition padEnd (n : nat) (s : string) : string :=
  s +:+ String.concat "" (replicate (n - String.length s) " ").

Definition upperAscii (c : ascii) : ascii :=
  let n := nat_of_ascii c in
  if Nat.leb 97 n && Nat.leb n 122 then ascii_of_nat (n - 32) else c.

(** [s.toUpperCase()] on ASCII letters; the level names are ASCII. *)
Fixpoint toUpperCase (s : string) : string :=
  match s with
  | EmptyString => EmptyString
  | String c rest => String (upperAscii c) (toUpperCase rest)
  end.

(** [haystack.includes(needle)], as a proposition. *)
Definition contains (haystack needle : string) : Prop :=
  exists before after, haystack = before +:+ needle +:+ after.

End Str.

(** ** Values and the heap *)

Definition loc := nat.

Inductive number :=
| NumInt (z : Z)
| NumNaN
| NumInfinity (negative : bool).

Inductive Value :=
| VUndefined
| VNull
| VBool (b : bool)
| VNumber (n : number)
| VString (s : string)
| VBigInt (z : Z)
| VSymbol (description : string)
| VFunction (fname : string)
| VRef (l : loc).

(** An [Error] instance: the four properties the logger reads. *)
Record ErrorObj := mkError {
  name : string;
  message : option string;
  stack : option string;
  cause : Value
}.

(** Heap objects: errors, ordinary objects (own enumerable string keys in
    enumeration order) and arrays.  No object of the model has a [toJSON]
    method, a getter or a proxy handler. *)
Inductive Obj :=
| OError (e : ErrorObj)
| OPlain (props : list (string * Value))
| OArray (items : list Value).

Abbreviation Heap := (list Obj).

(** [new]: allocation at the end of the heap. *)
Definition alloc (h : Heap) (o : Obj) : loc * Heap := (List.length h, h ++ [o]).

(** [value instanceof Error]: the referenced error, when there is one. *)
Definition asError (h : Heap) (v : Value) : option (loc * ErrorObj) :=
  match v with
  | VRef l => match h !! l with
              | Some (OError e) => Some (l, e)
              | _ => None
              end
  | _ => None
  end.

Definition isError (h : Heap) (v : Value) : bool :=
  match asError h v with Some _ => true | None => false end.

(** [error.cause] of the error at [l]. *)
Definition causeOf (h : Heap) (l : loc) : Value :=
  match h !! l with
  | Some (OError e) => cause e
  | _ => VUndefined
  end.

(** ** Error inspector *)

(** [formatErrorMessage], logger.ts lines 28-35. *)
Definition formatErrorMessage (error : ErrorObj) : string :=
  match message error with
  | Some m => if Str.truthy m then m else Str.orElse (name error) "Error"
  | None => Str.orElse (name error) "Error"
  end.

(** The [while] loop of [getErrorCauses], lines 42-47.  [fuel] bounds the
    number of loop tests; [None] means the bound was hit. *)
Fixpoint causesLoop (fuel : nat) (h : Heap) (seen : gset loc)
    (causes : list (loc * ErrorObj)) (current : Value)
    : option (list (loc * ErrorObj)) :=
  match fuel with
  | O => None
  | S fuel' =>
      match asError h current with
      | None => Some causes
      | Some (l, e) =>
          if bool_decide (l ∈ seen) then Some causes
          else causesLoop fuel' h ({[l]} ∪ seen) (causes ++ [(l, e)]) (cause e)
      end
  end.

(** [getErrorCauses], lines 38-49, with the number of objects of the heap
    (plus one, for the last test) as fuel.  The result lists the errors of
    the chain, each with its reference. *)
Definition getErrorCauses (h : Heap) (error : loc)
    : option (list (loc * ErrorObj)) :=
  causesLoop (S (List.length h)) h {[error]} [] (causeOf h error).

(** ** Stack capture *)

(** [captureNativeStack], lines 52-58; [fresh] is the [stack] property of
    the [Error] created on line 53. *)
Definition captureNativeStack (fresh : option string) : string :=
  let stack := match fresh with
               | Some s => Str.orElse s ""
               | None => ""
               end in
  let lines := Str.split Str.newline stack in
  Str.join Str.nl (drop 1 lines).

(** ** Environment, events and the effect monad *)

(** What the code obtains from the engine and the process. *)
Record Env := mkEnv {
  NO_COLOR : option string;
  FORCE_COLOR : option string;
  COLORTERM : option string;
  (** [Bun.enableANSIColors], [None] when [typeof Bun === "undefined"]. *)
  bunEnableANSIColors : option bool;
  stdoutIsTTY : bool;
  (** [moduleToTruecolor] of [color.ts]. *)
  moduleToTruecolor : string -> string;
  (** [inspect(value, { depth, colors })]. *)
  inspect : Heap -> Value -> nat -> bool -> string;
  (** [new Date().toISOString()] at the n-th reading of the clock. *)
  toISOString : nat -> string;
  (** [new Error().stack] at the n-th capture. *)
  errorStack : nat -> option string
}.

(** The two stream handles held by a logger. *)
Inductive Stream := Stdout | Stderr.

(** Observable actions, in the order they happen. *)
Inductive Event :=
| Write (stream : Stream) (chunk : string)
| ProcessExit (code : Z).

Inductive Exception :=
| ErrorExc (msg : string)
| TypeErrorExc (msg : string).

Record World := mkWorld {
  trace : list Event;
  clockReads : nat;
  stackCaptures : nat
}.

Definition initialWorld : World := mkWorld [] 0 0.

(** How a call ends: it returns, throws, ends the process, or (in the
    model only) hits a fuel bound. *)
Inductive Outcome (A : Type) :=
| Returned (a : A)
| Threw (exc : Exception)
| Exited
| OutOfFuel.
Arguments Returned {A} a.
Arguments Threw {A} exc.
Arguments Exited {A}.
Arguments OutOfFuel {A}.

Definition M (A : Type) : Type := World -> Outcome A * World.

Definition ret {A} (a : A) : M A := fun w => (Returned a, w).

Definition bind {A B} (c : M A) (k : A -> M B) : M B :=
  fun w =>
    match c w with
    | (Returned a, w') => k a w'
    | (Threw exc, w') => (Threw exc, w')
    | (Exited, w') => (Exited, w')
    | (OutOfFuel, w') => (OutOfFuel, w')
    end.

Notation "x <- c ;; k" := (bind c (fun x => k))
  (at level 100, c at next level, right associativity).
Notation "c ;;; k" := (bind c (fun _ => k))
  (at level 100, right associativity).

Definition emit (ev : Event) : M unit :=
  fun w => (Returned tt, mkWorld (trace w ++ [ev]) (clockReads w) (stackCaptures w)).

(** [process.exit(code)]: the action is recorded and nothing runs after it. *)
Definition processExit {A} (code : Z) : M A :=
  fun w => (Exited, mkWorld (trace w ++ [ProcessExit code]) (clockReads w) (stackCaptures w)).

(** A computation bounded by fuel, lifted. *)
Definition liftFuel {A} (o : option A) : M A :=
  fun w => match o with
           | Some a => (Returned a, w)
           | None => (OutOfFuel, w)
           end.

(** [for (const x of xs) body(x)]. *)
Fixpoint forEach {A} (xs : list A) (body : A -> M unit) : M unit :=
  match xs with
  | [] => ret tt
  | x :: rest => body x ;;; forEach rest body
  end.

Definition when (b : bool) (c : M unit) : M unit := if b then c else ret tt.

(** The chunks written, in order, whatever the stream. *)
Definition written (t : list Event) : list string :=
  omap (fun ev => match ev with Write _ chunk => Some chunk | ProcessExit _ => None end) t.

(** The chunks written to one stream. *)
Definition writtenTo (s : Stream) (t : list Event) : list string :=
  omap (fun ev => match ev, s with
                  | Write Stdout chunk, Stdout => Some chunk
                  | Write Stderr chunk, Stderr => Some chunk
                  | _, _ => None
                  end) t.

(** ** Constants of [common.ts], [color.ts] and [logger.ts] *)

Definition LOG_LEVELS : list string := ["debug"; "info"; "warn"; "error"; "fatal"].
Definition STDOUT_LEVELS : list string := ["debug"; "info"].
Definition OUTPUT_FORMATS : list string := ["text"; "jsonl"].

Module COLORS.
Definition reset : string := Str.esc +:+ "[0m".
Definition dim : string := Str.esc +:+ "[2m".
Definition gray : string := Str.esc +:+ "[90m".
Definition cyan : string := Str.esc +:+ "[36m".
Definition yellow : string := Str.esc +:+ "[33m".
Definition red : string := Str.esc +:+ "[31m".
Definition brightRed : string := Str.esc +:+ "[91m".
Definition magenta : string := Str.esc +:+ "[35m".
Definition blue : string := Str.esc +:+ "[34m".
End COLORS.

(** [LEVEL_COLORS[level]] for the keys the logger reads.  A key outside
    the table reads [undefined] here; in JavaScript the names inherited
    from [Object.prototype] (such as "constructor") read those members
    instead.  [buildPrefix] is reached with one of the five levels only,
    once the minimum level is valid. *)
Definition LEVEL_COLORS (level : string) : option string :=
  if String.eqb level "debug" then Some COLORS.gray
  else if String.eqb level "info" then Some COLORS.cyan
  else if String.eqb level "warn" then Some COLORS.yellow
  else if String.eqb level "error" then Some COLORS.red
  else if String.eqb level "fatal" then Some COLORS.brightRed
  else None.

(** A possibly undefined string inside a template literal. *)
Definition template (s : option string) : string :=
  match s with Some s => s | None => "undefined" end.

(** [xs.includes(x)] and [xs.indexOf(x)] on arrays of strings. *)
Definition includes (xs : list string) (x : string) : bool :=
  existsb (String.eqb x) xs.

Fixpoint indexOfFrom (i : Z) (xs : list string) (x : string) : Z :=
  match xs with
  | [] => (-1)%Z
  | y :: rest => if String.eqb y x then i else indexOfFrom (i + 1)%Z rest x
  end.

Definition indexOf (xs : list string) (x : string) : Z := indexOfFrom 0%Z xs x.

(** The rank of a level: its position in [LOG_LEVELS]. *)
Definition rank (level : string) : Z := indexOf LOG_LEVELS level.

(** ** The [Logger] class *)

Record Logger := mkLogger {
  logLevel : string;
  module : string;
  useColor : bool;
  useTruecolor : bool;
  moduleColor : string;
  outputFormat : string;
  jsonlSplitStreams : bool
}.

(** The options object of the constructor; [None] is an absent option. *)
Record LoggerOptions := mkOptions {
  optLogLevel : option string;
  optModule : option string;
  optOutputFormat : option string;
  optJsonlSplitStreams : option bool
}.

(** The optional fourth argument of [logInternal]. *)
Record JsonLogContext := mkContext {
  duration : option string;
  durationMs : option number
}.

(** A call that touches no stream: it completes or throws. *)
Inductive Completion (A : Type) :=
| Normal (a : A)
| Abrupt (exc : Exception).
Arguments Normal {A} a.
Arguments Abrupt {A} exc.

Section LoggerClass.

Variable env : Env.

(** [detectColorSupport], lines 147-152. *)
Definition detectColorSupport : bool :=
  if bool_decide (NO_COLOR env <> None) then false
  else if bool_decide (FORCE_COLOR env <> None) then true
  else match bunEnableANSIColors env with
       | None => stdoutIsTTY env
       | Some enabled => enabled
       end.

(** [detectTruecolorSupport], lines 154-158. *)
Definition detectTruecolorSupport (color : bool) : bool :=
  if negb color then false
  else match COLORTERM env with
       | Some colorterm =>
           String.eqb colorterm "truecolor" || String.eqb colorterm "24bit"
       | None => false
       end.

(** [computeModuleColor], lines 160-163. *)
Definition computeModuleColor (label : string) (truecolor : bool) : string :=
  if negb (Str.truthy label) then ""
  else if truecolor then moduleToTruecolor env label else COLORS.magenta.

Definition invalidLevelMessage (level : string) : string :=
  "Invalid log level: " +:+ Str.dquote +:+ level +:+ Str.dquote
    +:+ ". Valid levels: " +:+ Str.join ", " LOG_LEVELS.

Definition invalidFormatMessage (format : string) : string :=
  "Invalid output format: " +:+ Str.dquote +:+ format +:+ Str.dquote
    +:+ ". Valid formats: " +:+ Str.join ", " OUTPUT_FORMATS.

(** The constructor, lines 114-145. *)
Definition newLogger (options : LoggerOptions) : Completion Logger :=
  let level := default "info" (optLogLevel options) in
  let label := default "" (optModule options) in
  let format := default "text" (optOutputFormat options) in
  let split := default false (optJsonlSplitStreams options) in
  if negb (includes LOG_LEVELS level) then
    Abrupt (ErrorExc (invalidLevelMessage level))
  else if negb (includes OUTPUT_FORMATS format) then
    Abrupt (ErrorExc (invalidFormatMessage format))
  else
    let color := detectColorSupport in
    let truecolor := detectTruecolorSupport color in
    Normal {| logLevel := level;
              module := label;
              useColor := color;
              useTruecolor := truecolor;
              moduleColor := computeModuleColor label truecolor;
              outputFormat := format;
              jsonlSplitStreams := split |}.

(** [setLogLevel], lines 452-459: the completion and the instance after
    the call. *)
Definition setLogLevel (this : Logger) (level : string)
    : Completion unit * Logger :=
  if negb (includes LOG_LEVELS level) then
    (Abrupt (ErrorExc (invalidLevelMessage level)), this)
  else
    (Normal tt, {| logLevel := level;
                   module := module this;
                   useColor := useColor this;
                   useTruecolor := useTruecolor this;
                   moduleColor := moduleColor this;
                   outputFormat := outputFormat this;
                   jsonlSplitStreams := jsonlSplitStreams this |}).

(** [setModule], lines 462-465. *)
Definition setModule (this : Logger) (label : string) : Logger :=
  {| logLevel := logLevel this;
     module := label;
     useColor := useColor this;
     useTruecolor := useTruecolor this;
     moduleColor := computeModuleColor label (useTruecolor this);
     outputFormat := outputFormat this;
     jsonlSplitStreams := jsonlSplitStreams this |}.

Variable this : Logger.

(** [colorize], lines 165-168. *)
Definition colorize (text color : string) : string :=
  if negb (useColor this) then text
  else color +:+ text +:+ COLORS.reset.

(** [formatValue], lines 171-175. *)
Definition formatValue (h : Heap) (value : Value) : string :=
  match value with
  | VString s => s
  | _ => match asError h value with
         | Some (_, e) => formatErrorMessage e
         | None => inspect env h value 10 (useColor this)
         end
  end.

(** [formatArgs], lines 178-181. *)
Definition formatArgs (h : Heap) (args : list Value) : string :=
  if Nat.eqb (List.length args) 0 then ""
  else " " +:+ Str.join " " (map (formatValue h) args).

(** [new Date().toISOString()]. *)
Definition nowISO : M string :=
  fun w => (Returned (toISOString env (clockReads w)),
            mkWorld (trace w) (S (clockReads w)) (stackCaptures w)).

(** [captureNativeStack()] on the stack of a fresh error. *)
Definition captureStack : M string :=
  fun w => (Returned (captureNativeStack (errorStack env (stackCaptures w))),
            mkWorld (trace w) (clockReads w) (S (stackCaptures w))).

(** The prefix for a given timestamp, lines 185-194. *)
Definition prefixAt (iso level : string) : string :=
  let timestamp := colorize iso COLORS.dim in
  let levelTag :=
    colorize (Str.padEnd 7 ("[" +:+ Str.toUpperCase level +:+ "]"))
             (template (LEVEL_COLORS level)) in
  let moduleTag :=
    if Str.truthy (module this)
    then colorize ("[" +:+ module this +:+ "]") (moduleColor this) +:+ " "
    else "" in
  timestamp +:+ "  " +:+ levelTag +:+ "  " +:+ moduleTag.

(** [buildPrefix], lines 184-195. *)
Definition buildPrefix (level : string) : M string :=
  iso <- nowISO ;; ret (prefixAt iso level).

(** The stream chosen by [writeLine], lines 199-205. *)
Definition streamFor (level : string) : Stream :=
  let useUnifiedJsonStream :=
    String.eqb (outputFormat this) "jsonl" && negb (jsonlSplitStreams this) in
  if useUnifiedJsonStream then Stdout
  else if includes STDOUT_LEVELS level then Stdout
  else Stderr.

(** [writeLine], lines 198-207. *)
Definition writeLine (level message : string) : M unit :=
  emit (Write (streamFor level) (message +:+ Str.nl)).

(** [logCauseChain], lines 300-309. *)
Definition logCauseChain (h : Heap) (level : string) (error : loc) : M unit :=
  causes <- liftFuel (getErrorCauses h error) ;;
  prefix <- buildPrefix level ;;
  forEach causes (fun c =>
    writeLine level (prefix +:+ "  Caused by: " +:+ formatErrorMessage (snd c))).

(** [logStack], lines 312-318. *)
Definition logStack (level stack indent : string) : M unit :=
  prefix <- buildPrefix level ;;
  let lines := filter (fun line => Is_true (Str.trimTruthy line))
                      (Str.split Str.newline stack) in
  forEach lines (fun line => writeLine level (prefix +:+ indent +:+ line)).

End LoggerClass.

(** ** JSON records *)

(** An element of the [causes] array, lines 220-224. *)
Definition causeEntry (c : loc * ErrorObj) : Obj :=
  OPlain [("name", VString (Str.orElse (name (snd c)) "Error"));
          ("message", VString (formatErrorMessage (snd c)));
          ("stack", match stack (snd c) with
                    | Some s => VString s
                    | None => VUndefined
                    end)].

(** [xs.map(f)] where [f] creates one object per element. *)
Fixpoint allocAll (h : Heap) (objs : list Obj) : list loc * Heap :=
  match objs with
  | [] => ([], h)
  | o :: rest =>
      let '(l, h1) := alloc h o in
      let '(ls, h2) := allocAll h1 rest in
      (l :: ls, h2)
  end.

(** [serializeError], lines 209-228.  The objects it creates are allocated
    in the heap; the result is the reference of [details], or [None] when
    the fuel of [getErrorCauses] is used up (it never is). *)
Definition serializeError (h : Heap) (l : loc) (error : ErrorObj)
    : option (loc * Heap) :=
  let details := [("name", VString (Str.orElse (name error) "Error"));
                  ("message", VString (formatErrorMessage error))] in
  let details := match stack error with
                 | Some s => if Str.truthy s
                             then details ++ [("stack", VString s)]
                             else details
                 | None => details
                 end in
  match getErrorCauses h l with
  | None => None
  | Some causes =>
      if Nat.ltb 0 (List.length causes) then
        let '(entries, h1) := allocAll h (map causeEntry causes) in
        let '(arr, h2) := alloc h1 (OArray (map VRef entries)) in
        Some (alloc h2 (OPlain (details ++ [("causes", VRef arr)])))
      else Some (alloc h (OPlain details))
  end.

Module JSON.

Definition hexDigit (n : nat) : string :=
  String.substring n 1 "0123456789abcdef".

(** One code unit inside [QuoteJSONString]. *)
Definition quoteChar (c : ascii) : string :=
  let n := nat_of_ascii c in
  if Nat.eqb n 8 then Str.backslash +:+ "b"
  else if Nat.eqb n 9 then Str.backslash +:+ "t"
  else if Nat.eqb n 10 then Str.backslash +:+ "n"
  else if Nat.eqb n 12 then Str.backslash +:+ "f"
  else if Nat.eqb n 13 then Str.backslash +:+ "r"
  else if Nat.eqb n 34 then Str.backslash +:+ Str.dquote
  else if Nat.eqb n 92 then Str.backslash +:+ Str.backslash
  else if Nat.ltb n 32
       then Str.backslash +:+ "u00" +:+ hexDigit (n / 16) +:+ hexDigit (n mod 16)
  else String c EmptyString.

Fixpoint quoteBody (s : string) : string :=
  match s with
  | EmptyString => EmptyString
  | String c rest => quoteChar c +:+ quoteBody rest
  end.

Definition quote (s : string) : string :=
  Str.dquote +:+ quoteBody s +:+ Str.dquote.

(** A member of an object, and the text of an object and of an array
    (no indentation: the logger passes no [space] argument). *)
Definition member (key strP : string) : string := quote key +:+ ":" +:+ strP.

Definition object (partial : list string) : string :=
  "{" +:+ Str.join "," partial +:+ "}".

Definition array (partial : list string) : string :=
  "[" +:+ Str.join "," partial +:+ "]".

(** [Number::toString] on the modelled numbers; after the finiteness
    test of [SerializeJSONProperty].  The digits are those of JavaScript
    for the integers a number holds exactly (below 2^53 in absolute
    value); beyond them JavaScript rounds, and from 10^21 on it writes an
    exponent. *)
Definition numberToJSON (n : number) : string :=
  match n with
  | NumInt z => pretty z
  | NumNaN | NumInfinity _ => "null"
  end.

(** A replacer function with its captured mutable state [St]:
    [replacer this key value], [None] when a fuel bound inside it is hit. *)
Definition Replacer (St : Type) : Type :=
  option loc -> string -> Value -> Heap * St -> option (Value * (Heap * St)).

Section Stringify.

Context {St : Type} (replacer : Replacer St).

(** The state of one [JSON.stringify] call: the heap, the replacer's
    state, and the [[Stack]] of the objects being serialized. *)
Definition cyclic : Exception :=
  TypeErrorExc "Converting circular structure to JSON".

(** The loop of [SerializeJSONArray] over the elements; [child] is
    [SerializeJSONProperty] with the array as holder.  An element without
    a JSON text is written as null. *)
Fixpoint serializeElements
    (child : string -> Value -> Heap * St -> Outcome (option string * (Heap * St)))
    (index : nat) (items : list Value) (partial : list string) (st : Heap * St)
    : Outcome (list string * (Heap * St)) :=
  match items with
  | [] => Returned (partial, st)
  | item :: rest =>
      match child (pretty index) item st with
      | Returned (strP, st) =>
          serializeElements child (S index) rest
            (partial ++ [default "null" strP]) st
      | Threw exc => Threw exc
      | Exited => Exited
      | OutOfFuel => OutOfFuel
      end
  end.

(** The loop of [SerializeJSONObject] over the properties; a property
    without a JSON text is left out. *)
Fixpoint serializeMembers
    (child : string -> Value -> Heap * St -> Outcome (option string * (Heap * St)))
    (props : list (string * Value)) (partial : list string) (st : Heap * St)
    : Outcome (list string * (Heap * St)) :=
  match props with
  | [] => Returned (partial, st)
  | (P, item) :: rest =>
      match child P item st with
      | Returned (Some strP, st) =>
          serializeMembers child rest (partial ++ [member P strP]) st
      | Returned (None, st) => serializeMembers child rest partial st
      | Threw exc => Threw exc
      | Exited => Exited
      | OutOfFuel => OutOfFuel
      end
  end.

(** [SerializeJSONProperty]: the replacer is called on the value, then the
    result is written according to its type; an object is written by
    [SerializeJSONArray] or [SerializeJSONObject], which throw when the
    object is already on the [[Stack]].  [fuel] bounds the nesting depth;
    the result is [None] for [undefined]. *)
Fixpoint serializeProperty (fuel : nat) (stack : list loc)
    (holder : loc) (key : string) (value : Value) (st : Heap * St)
    : Outcome (option string * (Heap * St)) :=
  match fuel with
  | O => OutOfFuel
  | S fuel' =>
      match replacer (Some holder) key value st with
      | None => OutOfFuel
      | Some (value, st) =>
          match value with
          | VNull => Returned (Some "null", st)
          | VBool true => Returned (Some "true", st)
          | VBool false => Returned (Some "false", st)
          | VString s => Returned (Some (quote s), st)
          | VNumber n => Returned (Some (numberToJSON n), st)
          | VBigInt _ =>
              Threw (TypeErrorExc "Do not know how to serialize a BigInt")
          | VUndefined | VSymbol _ | VFunction _ => Returned (None, st)
          | VRef l =>
              if existsb (Nat.eqb l) stack then Threw cyclic
              else
                match fst st !! l with
                | Some (OArray items) =>
                    match serializeElements
                            (serializeProperty fuel' (stack ++ [l]) l)
                            0 items [] st with
                    | Returned (partial, st) => Returned (Some (array partial), st)
                    | Threw exc => Threw exc
                    | Exited => Exited
                    | OutOfFuel => OutOfFuel
                    end
                | Some (OPlain props) =>
                    match serializeMembers
                            (serializeProperty fuel' (stack ++ [l]) l)
                            props [] st with
                    | Returned (partial, st) => Returned (Some (object partial), st)
                    | Threw exc => Threw exc
                    | Exited => Exited
                    | OutOfFuel => OutOfFuel
                    end
                | Some (OError _) | None =>
                    (* not reached with the logger's replacer, which
                       replaces every error before this point *)
                    Returned (Some "{}", st)
                end
          end
      end
  end.

(** The fuel given to [serializeProperty]: the objects of the heap at the
    start, plus room for the three levels of a serialized error and the
    leaf calls below them.  The [[Stack]] never repeats an object, so this
    is enough ([stringifyJsonRecord_returns_or_cyclic]). *)
Definition depthBound (h : Heap) : nat := List.length h + 5.

(** [JSON.stringify(value, replacer)]: the wrapper object holds
    [value] under the empty key. *)
Definition stringify (h : Heap) (value : Value) (s0 : St)
    : Outcome (option string) :=
  let '(wrapper, h1) := alloc h (OPlain [("", value)]) in
  match serializeProperty (depthBound h1) [] wrapper "" value (h1, s0) with
  | Returned (str, _) => Returned str
  | Threw exc => Threw exc
  | Exited => Exited
  | OutOfFuel => OutOfFuel
  end.

End Stringify.

End JSON.

Section LoggerJson.

Variable env : Env.
Variable this : Logger.

(** The [while] loop of lines 247-253.  The head of the list is the last
    element of the [ancestors] array; [holder] is the [this] of the
    replacer call. *)
Fixpoint popAncestors (ancestors : list loc) (holder : option loc) : list loc :=
  match ancestors, holder with
  | top :: rest, Some parent =>
      if negb (Nat.eqb top parent) then popAncestors rest holder
      else ancestors
  | _, _ => ancestors
  end.

(** The replacer of [stringifyJsonRecord], lines 233-260; its state is
    the [ancestors] array. *)
Definition replacer : JSON.Replacer (list loc) :=
  fun holder _key value st =>
    let '(h, ancestors) := st in
    match asError h value with
    | Some (l, e) =>
        match serializeError h l e with
        | Some (details, h') => Some (VRef details, (h', ancestors))
        | None => None
        end
    | None =>
        match value with
        | VBigInt z => Some (VString (pretty z), st)
        | VFunction _ | VSymbol _ =>
            Some (VString (inspect env h value 1 false), st)
        | VUndefined => Some (VNull, st)
        | VRef l =>
            let ancestors := popAncestors ancestors holder in
            if existsb (Nat.eqb l) ancestors
            then Some (VString "[Circular]", (h, ancestors))
            else Some (value, (h, l :: ancestors))
        | _ => Some (value, st)
        end
    end.

(** [stringifyJsonRecord], lines 230-261. *)
Definition stringifyJsonRecord (h : Heap) (record : loc)
    : Outcome (option string) :=
  JSON.stringify replacer h (VRef record) [].

(** [errors.map((error) => this.serializeError(error))], line 291. *)
Fixpoint serializeErrors (errors : list (loc * ErrorObj)) (h : Heap)
    : option (list Value * Heap) :=
  match errors with
  | [] => Some ([], h)
  | (l, e) :: rest =>
      match serializeError h l e with
      | Some (d, h1) =>
          match serializeErrors rest h1 with
          | Some (ds, h2) => Some (VRef d :: ds, h2)
          | None => None
          end
      | None => None
      end
  end.

(** The record of lines 269-286, before the error fields: its properties
    for a given timestamp, and the heap, which holds the [args] array when
    the record refers to it. *)
Definition baseProps (h : Heap) (timestamp level : string)
    (message : Value) (args : list Value) (context : option JsonLogContext)
    : list (string * Value) * Heap :=
  let record := [("timestamp", VString timestamp);
                 ("level", VString level);
                 ("message", message)] in
  let record := if Str.truthy (module this)
                then record ++ [("module", VString (module this))]
                else record in
  let '(record, h) :=
    if Nat.ltb 0 (List.length args)
    then let '(a, h1) := alloc h (OArray args) in
         (record ++ [("args", VRef a)], h1)
    else (record, h) in
  let record := match context ≫= duration with
                | Some d => record ++ [("duration", VString d)]
                | None => record
                end in
  let record := match context ≫= durationMs with
                | Some ms => record ++ [("durationMs", VNumber ms)]
                | None => record
                end in
  (record, h).

(** [buildJsonRecord], lines 263-297: the reference of the record and the
    heap that holds it.  The record object is allocated when it is complete;
    nothing can refer to it before. *)
Definition buildJsonRecord (h : Heap) (level : string) (message : Value)
    (args : list Value) (context : option JsonLogContext) : M (loc * Heap) :=
  timestamp <- nowISO env ;;
  let '(record, h) := baseProps h timestamp level message args context in
  if String.eqb level "error" || String.eqb level "fatal" then
    let errors := omap (asError h) (message :: args) in
    withErrors <-
      (if Nat.ltb 0 (List.length errors) then
         serialized <- liftFuel (serializeErrors errors h) ;;
         let '(arr, h1) := alloc (snd serialized) (OArray (fst serialized)) in
         ret (record ++ [("errors", VRef arr)], h1)
       else ret (record, h)) ;;
    nativeStack <- captureStack env ;;
    ret (alloc (snd withErrors)
           (OPlain (fst withErrors ++ [("nativeStack", VString nativeStack)])))
  else ret (alloc h (OPlain record)).

(** A pure computation that may throw, lifted. *)
Definition liftOutcome {A} (o : Outcome A) : M A := fun w => (o, w).

(** [logInternal], lines 345-396, on the heap [h] of the caller. *)
Definition logInternal (h : Heap) (level : string) (message : Value)
    (args : list Value) (context : option JsonLogContext) : M unit :=
  if Z.ltb (indexOf LOG_LEVELS level) (indexOf LOG_LEVELS (logLevel this))
  then ret tt
  else if String.eqb (outputFormat this) "jsonl" then
    jsonRecord <- buildJsonRecord h level message args context ;;
    line <- liftOutcome (stringifyJsonRecord (snd jsonRecord) (fst jsonRecord)) ;;
    writeLine this level (template line) ;;;
    if String.eqb level "fatal" then processExit 1 else ret tt
  else
    prefix <- buildPrefix env this level ;;
    let formattedMessage := formatValue env this h message in
    let formattedArgs := formatArgs env this h args in
    let outputMessage := prefix +:+ formattedMessage +:+ formattedArgs in
    writeLine this level outputMessage ;;;
    when (String.eqb level "error" || String.eqb level "fatal")
      (let allValues := message :: args in
       let errors := omap (asError h) allValues in
       forEach errors (fun error =>
         logCauseChain env this h level (fst error) ;;;
         match stack (snd error) with
         | Some s => when (Str.truthy s) (logStack env this level s "  ")
         | None => ret tt
         end) ;;;
       nativeStack <- captureStack env ;;
       when (Str.truthy nativeStack)
         (writeLine this level (prefix +:+ "  Stack trace:") ;;;
          logStack env this level nativeStack "  ")) ;;;
    if String.eqb level "fatal" then processExit 1 else ret tt.

(** [log] and [logWithContext], lines 326-343. *)
Definition log (h : Heap) (level : string) (message : Value)
    (args : list Value) : M unit :=
  logInternal h level message args None.

Definition logWithContext (h : Heap) (level : string) (message : Value)
    (args : list Value) (context : option JsonLogContext) : M unit :=
  logInternal h level message args context.

End LoggerJson.

(** ** Vocabulary of the properties *)

(** An entry of a cause chain is an error of the heap at its reference. *)
Definition validCause (h : Heap) (c : loc * ErrorObj) : Prop :=
  h !! c.1 = Some (OError c.2).

(** [record[k]]. *)
Fixpoint getKey (k : string) (props : list (string * Value)) : option Value :=
  match props with
  | [] => None
  | (k', v) :: rest => if String.eqb k' k then Some v else getKey k rest
  end.

(** [k in record]. *)
Definition hasKey (k : string) (props : list (string * Value)) : Prop :=
  is_Some (getKey k props).

(** Heaps without error objects. *)
Definition notError (o : Obj) : Prop := forall e, o <> OError e.

Definition noErrors (h : Heap) : Prop := Forall notError h.

(** The replacer's [ancestors] mirrors the [[Stack]] of [JSON.stringify]:
    below the objects left over from the siblings already written, it is
    the stack, top first. *)
Definition mirrors (stack ancestors : list loc) : Prop :=
  exists junk, ancestors = junk ++ reverse stack /\ forall x, x ∈ junk -> x ∉ stack.

(** A [SerializeJSONProperty] that, on the heap [h], returns, leaves the
    heap as it is and keeps the invariant. *)
Definition childReturnsOn (h : Heap)
    (child : string -> Value -> Heap * list loc
             -> Outcome (option string * (Heap * list loc)))
    (stack : list loc) : Prop :=
  forall key value anc,
    mirrors stack anc ->
    exists str anc', child key value (h, anc) = Returned (str, (h, anc'))
                     /\ mirrors stack anc'.

(** The holder of a replacer call is the top of the stack (the wrapper
    object, for the first call). *)
Definition holds (stack : list loc) (holder : loc) (ancestors : list loc) : Prop :=
  match stack with
  | [] => holder ∉ ancestors
  | _ => last stack = Some holder
  end.








(** The world after more events, clock readings and stack captures. *)
Definition advance (w : World) (evs : list Event) (clock captures : nat) : World :=
  mkWorld (trace w ++ evs) (clockReads w + clock) (stackCaptures w + captures).

(** The lines of a stack that [logStack] prints. *)
Definition printedLines (stack : string) : list string :=
  filter (fun line => Is_true (Str.trimTruthy line)) (Str.split Str.newline stack).

(** [level === "error" || level === "fatal"]. *)
Definition isErrorLevel (level : string) : bool :=
  String.eqb level "error" || String.eqb level "fatal".

Definition writesTo (s : Stream) (ev : Event) : Prop :=
  exists chunk, ev = Write s chunk.

(** What a call that got through the filter ends with. *)
Definition exitEvents (level : string) : list Event :=
  if String.eqb level "fatal" then [ProcessExit 1] else [].

Definition expectedOutcome (level : string) : Outcome unit :=
  if String.eqb level "fatal" then Exited else Returned tt.

Section Expected.

Variable env : Env.
Variable this : Logger.

(** The primary line of a text-mode call started in world [w]. *)
Definition primaryLine (h : Heap) (level : string) (message : Value)
    (args : list Value) (w : World) : string :=
  (prefixAt this (toISOString env (clockReads w)) level
     +:+ formatValue env this h message +:+ formatArgs env this h args) +:+ Str.nl.

(** The native stack of a call started in world [w]. *)
Definition nativeStackAt (w : World) : string :=
  captureNativeStack (errorStack env (stackCaptures w)).

(** The stack section that ends a text-mode error or fatal call: the
    header, then one line per printed line of the native stack, under the
    prefix of the [m]-th clock reading. *)
Definition stackSection (level : string) (w : World) (m : nat) : list Event :=
  Write (streamFor this level)
    ((prefixAt this (toISOString env (clockReads w)) level +:+ "  Stack trace:")
       +:+ Str.nl)
  :: map (fun line =>
            Write (streamFor this level)
              (prefixAt this (toISOString env m) level +:+ "  " +:+ line +:+ Str.nl))
         (printedLines (nativeStackAt w)).

(** The properties of the record of [buildJsonRecord], in order;
    [argsRef] and [errorsRef] are the references of its two arrays. *)
Definition expectedProps (h : Heap) (timestamp nativeStack level : string)
    (message : Value) (args : list Value) (context : option JsonLogContext)
    (argsRef errorsRef : loc) : list (string * Value) :=
  [("timestamp", VString timestamp); ("level", VString level); ("message", message)]
  ++ (if Str.truthy (module this) then [("module", VString (module this))] else [])
  ++ (if Nat.ltb 0 (List.length args) then [("args", VRef argsRef)] else [])
  ++ match context ≫= duration with
     | Some d => [("duration", VString d)]
     | None => []
     end
  ++ match context ≫= durationMs with
     | Some ms => [("durationMs", VNumber ms)]
     | None => []
     end
  ++ (if isErrorLevel level
      then (if existsb (isError h) (message :: args)
            then [("errors", VRef errorsRef)] else [])
           ++ [("nativeStack", VString nativeStack)]
      else []).

End Expected.

(** ** Sample inputs *)

Definition sampleEnv : Env :=
  {| NO_COLOR := None;
     FORCE_COLOR := None;
     COLORTERM := None;
     bunEnableANSIColors := None;
     stdoutIsTTY := false;
     moduleToTruecolor := fun _ => Str.esc +:+ "[38;2;0;0;0m";
     inspect := fun _ _ _ _ => "<inspected>";
     toISOString := fun n => "2024-01-01T00:00:0" +:+ pretty n +:+ ".000Z";
     errorStack := fun _ =>
       Some (Str.join Str.nl ["Error"; "    at captureNativeStack"; "    at main"]) |}.

Definition sampleLogger (format level : string) : Logger :=
  {| logLevel := level;
     module := "";
     useColor := false;
     useTruecolor := false;
     moduleColor := "";
     outputFormat := format;
     jsonlSplitStreams := false |}.

(** [A.cause = A]. *)
Definition selfCauseHeap : Heap :=
  [OError (mkError "Error" (Some "Self-ref") None (VRef 0))].

(** [A.cause = B; B.cause = A], with [A] at 0 and [B] at 1. *)
Definition cyclicCauseHeap : Heap :=
  [OError (mkError "Error" (Some "Error 1") None (VRef 1));
   OError (mkError "Error" (Some "Error 2") None (VRef 0))].

(** [const context = { traceId: "abc123" }]. *)
Definition traceHeap : Heap := [OPlain [("traceId", VString "abc123")]].

(** [inner = new Error("inner"); outer = new Error("outer");
    outer.cause = inner; ctx = { err: outer }; ctx.self = ctx]:
    [inner] at 0, [outer] at 1, [ctx] at 2. *)
Definition failedRequestHeap : Heap :=
  [OError (mkError "Error" (Some "inner") None VUndefined);
   OError (mkError "Error" (Some "outer") None (VRef 0));
   OPlain [("err", VRef 1); ("self", VRef 2)]].

(** The same object without the error: [ctx = { id: 7 }; ctx.self = ctx]. *)
Definition plainCycleHeap : Heap :=
  [OPlain [("id", VNumber (NumInt 7)); ("self", VRef 0)]].

(** The logger of the JSON examples and their first timestamp. *)
Definition jsonLogger : Logger := sampleLogger "jsonl" "debug".

Definition firstTimestamp : string := toISOString sampleEnv 0.

(** The line of [jsonLogger.info("request", context, context)]. *)
Definition repeatedContextLine : string :=
  JSON.object
    [JSON.member "timestamp" (JSON.quote firstTimestamp);
     JSON.member "level" (JSON.quote "info");
     JSON.member "message" (JSON.quote "request");
     JSON.member "args"
       (JSON.array
          [JSON.object [JSON.member "traceId" (JSON.quote "abc123")];
           JSON.object [JSON.member "traceId" (JSON.quote "abc123")]])].

(** The line of [jsonLogger.info("request", ctx)] for the cyclic [ctx] of
    [plainCycleHeap]. *)
Definition plainCycleLine : string :=
  JSON.object
    [JSON.member "timestamp" (JSON.quote firstTimestamp);
     JSON.member "level" (JSON.quote "info");
     JSON.member "message" (JSON.quote "request");
     JSON.member "args"
       (JSON.array
          [JSON.object [JSON.member "id" "7";
                        JSON.member "self" (JSON.quote "[Circular]")]])].

(** ** The rest of the code: level methods, [color.ts], [duration.ts], timers *)

(** *** The level methods *)

Section LevelMethods.

Variable env : Env.
Variable this : Logger.

(** [isJsonlOutput], lines 331-333. *)
Definition isJsonlOutput : bool := String.eqb (outputFormat this) "jsonl".




Definition logError (h : Heap) (message : Value) (args : list Value) : M unit :=
  log env this h "error" message args.





Definition error (h : Heap) (message : Value) (args : list Value) : M unit :=
  logError h message args.


(** [formatDurationTag], lines 481-483. *)
Definition formatDurationTag (durationStr : string) : string :=
  colorize this ("[" +:+ durationStr +:+ "]") COLORS.blue.

End LevelMethods.

(** *** [color.ts] *)

Module Color.

(** [ToInt32]: the integer modulo 2^32, in the signed range. *)
Definition toInt32 (z : Z) : Z := ((z + 2 ^ 31) mod 2 ^ 32 - 2 ^ 31)%Z.

(** The loop of [hashString], color.ts lines 27-30.  [hash << 5] is a
    32-bit shift; the subtraction and the addition are exact (the operands
    are below 2^33 in absolute value); [hash |= 0] is [ToInt32]. *)
Fixpoint hashLoop (hash : Z) (str : string) : Z :=
  match str with
  | EmptyString => hash
  | String c rest =>
      let hash :=
        (toInt32 (Z.shiftl (toInt32 hash) 5) - hash + Z.of_nat (nat_of_ascii c))%Z in
      let hash := toInt32 hash in
      hashLoop hash rest
  end.

(** [hashString], color.ts lines 25-32. *)
Definition hashString (str : string) : Z := Z.abs (hashLoop 0 str).

(** [moduleToTruecolor], color.ts lines 75-79.  [hslToRgb] computes on
    floating-point numbers and is a parameter: [hslToRgb hue] stands for
    [hslToRgb(hue, 0.7, 0.6)], three integers (the results of
    [Math.round]).  [%] is the remainder of JavaScript. *)
Definition moduleToTruecolor (hslToRgb : Z -> Z * Z * Z) (label : string) : string :=
  let hue := Z.rem (hashString label) 360 in
  let '(r, g, b) := hslToRgb hue in
  Str.esc +:+ "[38;2;" +:+ pretty r +:+ ";" +:+ pretty g +:+ ";" +:+ pretty b +:+ "m".

End Color.

(** *** [duration.ts] *)

(** The duration object given to [Intl.DurationFormat]. *)
Record DurationInput := mkDuration {
  hours : number;
  minutes : number;
  seconds : number;
  milliseconds : number
}.

(** Elapsed times are double-precision numbers: their type, the arithmetic
    on them and [Intl.DurationFormat] are the engine's. *)
Record Clock := mkClock {
  double : Type;
  (** An integer literal. *)
  literal : Z -> double;
  (** [a - b], [a / b] and [a % b]. *)
  subtract : double -> double -> double;
  divide : double -> double -> double;
  remainder : double -> double -> double;
  (** [Math.floor] and [Math.round]: an integer, or a non-finite value. *)
  mathFloor : double -> number;
  mathRound : double -> number;
  (** [new Intl.DurationFormat(undefined, { style }).format(duration)]. *)
  durationFormat : string -> DurationInput -> string
}.

(** A number inside a template literal.  The digits are those of
    JavaScript for the integers that a number holds exactly. *)
Definition numberToString (n : number) : string :=
  match n with
  | NumInt z => pretty z
  | NumNaN => "NaN"
  | NumInfinity false => "Infinity"
  | NumInfinity true => "-Infinity"
  end.

(** The integers a number holds exactly. *)
Definition safeInteger (n : number) : Prop :=
  match n with
  | NumInt z => (Z.abs z < 2 ^ 53)%Z
  | _ => False
  end.

(** *** The [Timer] class *)

Section Timers.

Variable clock : Clock.

(** [msToDuration], duration.ts lines 52-58. *)
Definition msToDuration (ms : double clock) : DurationInput :=
  {| hours := mathFloor clock (divide clock ms (literal clock 3600000));
     minutes := mathFloor clock
                  (divide clock (remainder clock ms (literal clock 3600000))
                          (literal clock 60000));
     seconds := mathFloor clock
                  (divide clock (remainder clock ms (literal clock 60000))
                          (literal clock 1000));
     milliseconds := mathRound clock (remainder clock ms (literal clock 1000)) |}.

(** [formatDuration], duration.ts lines 61-67. *)
Definition formatDuration (ms : double clock) (format : string) : string :=
  if String.eqb format "raw" then numberToString (mathRound clock ms) +:+ "ms"
  else durationFormat clock format (msToDuration ms).

(** The options of [timer]; [None] is an absent option. *)
Record TimerOptions := mkTimerOptions {
  optFormat : option string
}.

(** A [Timer], lines 486-495.  Its [logger] field is a reference to the
    logger that made it: the methods below take the instance [this] the
    reference points to at the time of the call, so a timer sees the
    later [setLogLevel] and [setModule] of its logger. *)
Record Timer := mkTimer {
  startTime : double clock;
  format : string
}.

(** The constructor, lines 491-495, and [Logger.timer], lines 476-478;
    [now] is the reading of [performance.now()]. *)
Definition newTimer (now : double clock) (options : option TimerOptions) : Timer :=
  {| startTime := now;
     format := default "narrow" (options ≫= optFormat) |}.

Definition timer (now : double clock) (options : option TimerOptions) : Timer :=
  newTimer now options.

Variable env : Env.
Variable this : Logger.
Variable self : Timer.

(** [getElapsedDuration], lines 497-501: the elapsed time and its text. *)
Definition getElapsedDuration (now : double clock) : double clock * string :=
  let elapsed := subtract clock now (startTime self) in
  let formatted := formatDuration elapsed (format self) in
  (elapsed, formatted).

(** [prependDurationTag], lines 503-512. *)
Definition prependDurationTag (now : double clock) (h : Heap) (message : Value)
    : string :=
  let '(_, formatted) := getElapsedDuration now in
  let durationTag := formatDurationTag this formatted in
  let messageStr := match message with
                    | VString s => s
                    | _ => inspect env h message 10 false
                    end in
  durationTag +:+ " " +:+ messageStr.

(** [Timer.log], lines 514-524; [now] is the one reading of
    [performance.now()] the call makes. *)
Definition timerLog (now : double clock) (h : Heap) (level : string)
    (message : Value) (args : list Value) : M unit :=
  if isJsonlOutput this then
    let '(elapsedMs, formatted) := getElapsedDuration now in
    logWithContext env this h level message args
      (Some {| duration := Some formatted;
               durationMs := Some (mathRound clock elapsedMs) |})
  else
    log env this h level (VString (prependDurationTag now h message)) args.

End Timers.

(** ** More vocabulary *)

(** A string without a line feed. *)
Fixpoint oneLine (s : string) : bool :=
  match s with
  | EmptyString => true
  | String c rest => negb (Ascii.eqb c Str.newline) && oneLine rest
  end.

(** [chain] follows the [cause] links, starting at the value [from]. *)
Fixpoint linked (h : Heap) (from : Value) (chain : list (loc * ErrorObj)) : Prop :=
  match chain with
  | [] => True
  | c :: rest =>
      from = VRef c.1 /\ h !! c.1 = Some (OError c.2) /\ linked h (cause c.2) rest
  end.

(** The [cause] at which a chain that starts at [from] stops. *)
Definition stoppedAt (from : Value) (chain : list (loc * ErrorObj)) : Value :=
  match last chain with
  | Some c => cause c.2
  | None => from
  end.

(** What the constructor establishes and the mutators keep. *)
Definition wellFormed (env : Env) (lg : Logger) : Prop :=
  logLevel lg ∈ LOG_LEVELS
  /\ outputFormat lg ∈ OUTPUT_FORMATS
  /\ (useTruecolor lg = true -> useColor lg = true)
  /\ moduleColor lg = computeModuleColor env (module lg) (useTruecolor lg).

(** The value of the polynomial [c0 * 31^(n-1) + ... + c(n-1)] on the
    code units of a string, from the accumulator [acc]. *)
Fixpoint polynomial31 (acc : Z) (str : string) : Z :=
  match str with
  | EmptyString => acc
  | String c rest => polynomial31 (31 * acc + Z.of_nat (nat_of_ascii c))%Z rest
  end.

(** The text of a stack in the format of V8, which Bun follows: a header
    line, then one line per frame, the innermost frame first. *)
Definition stackText (header : string) (frames : list string) : string :=
  Str.join Str.nl (header :: frames).

(** The same trace "with its own first frame removed", in the words of
    the specification. *)
Definition firstFrameRemoved (frames : list string) : string :=
  Str.join Str.nl (drop 1 frames).



(** The lines of [logCauseChain] and of [logStack], under the prefix of
    the [m]-th reading of the clock. *)
Definition causeLines (env : Env) (lg : Logger) (level : string)
    (chain : list (loc * ErrorObj)) (m : nat) : list Event :=
  map (fun c => Write (streamFor lg level)
                  (prefixAt lg (toISOString env m) level
                     +:+ "  Caused by: " +:+ formatErrorMessage c.2 +:+ Str.nl))
      chain.

Definition stackLines (env : Env) (lg : Logger) (level stack indent : string)
    (m : nat) : list Event :=
  map (fun line => Write (streamFor lg level)
                     (prefixAt lg (toISOString env m) level
                        +:+ indent +:+ line +:+ Str.nl))
      (printedLines stack).

(** ** More sample inputs *)

(** An engine with exact arithmetic on rational milliseconds. *)
Definition sampleClock : Clock :=
  {| double := Q;
     literal := inject_Z;
     subtract := Qminus;
     divide := Qdiv;
     remainder := fun a b =>
       let q := Qdiv a b in
       let whole := if Qle_bool 0 q then Qfloor q else Qceiling q in
       Qminus a (Qmult b (inject_Z whole));
     mathFloor := fun a => NumInt (Qfloor a);
     mathRound := fun a => NumInt (Qfloor (Qplus a (1 # 2)));
     durationFormat := fun _ d =>
       numberToString (seconds d) +:+ "s " +:+ numberToString (milliseconds d) +:+ "ms" |}.

(** [logger.timer({ format: "raw" })], started at 250.25 ms. *)
Definition rawTimer : Timer sampleClock :=
  timer sampleClock (1001 # 4)%Q (Some (mkTimerOptions (Some "raw"))).

(** [logger.timer()], started at the same time. *)
Definition narrowTimer : Timer sampleClock :=
  timer sampleClock (1001 # 4)%Q None.

(** [failure = new Error("disk full"); failure.cause = new Error("quota")],
    with the cause at 0 and [failure] at 1. *)
Definition diskFullHeap : Heap :=
  [OError (mkError "Error" (Some "quota") None VUndefined);
   OError (mkError "Error" (Some "disk full")
             (Some (Str.join Str.nl ["Error: disk full"; "    at write"]))
             (VRef 0))].

(** The JSON text of a child, when there is one, has no line feed. *)
Definition childOneLine {St : Type}
    (child : string -> Value -> Heap * St -> Outcome (option string * (Heap * St)))
    : Prop :=
  forall key value st str st',
    child key value st = Returned (Some str, st') -> oneLine str = true.

(** [{ msg: "line one\nline two" }]. *)
Definition twoLinesHeap : Heap :=
  [OPlain [("msg", VString ("line one" +:+ Str.nl +:+ "line two"))]].

(** * Properties *)

#[local] Set Warnings "-clear-no-such-hyp".

(** ** Strings *)

Lemma append_assoc (s1 s2 s3 : string) :
  (s1 +:+ s2) +:+ s3 = s1 +:+ (s2 +:+ s3).
Proof.
  induction s1 as [|c s1 IH]; [done|].
  change (String c ((s1 +:+ s2) +:+ s3) = String c (s1 +:+ (s2 +:+ s3))).
  by rewrite IH.
Qed.

Lemma append_empty_r (s : string) : s +:+ "" = s.
Proof.
  induction s as [|c s IH]; [done|].
  change (String c (s +:+ "") = String c s). by rewrite IH.
Qed.

Lemma truthy_true (s : string) : Str.truthy s = true <-> s <> "".
Proof.
  unfold Str.truthy. destruct (String.eqb_spec s ""); simpl; split; congruence.
Qed.

Lemma truthy_false (s : string) : Str.truthy s = false <-> s = "".
Proof.
  unfold Str.truthy. destruct (String.eqb_spec s ""); simpl; split; congruence.
Qed.

Lemma orElse_nonempty (s d : string) : d <> "" -> Str.orElse s d <> "".
Proof.
  intros Hd. unfold Str.orElse. destruct (Str.truthy s) eqn:E; [|done].
  by apply truthy_true.
Qed.

Lemma orElse_empty (s : string) : Str.orElse s "" = s.
Proof.
  unfold Str.orElse. destruct (Str.truthy s) eqn:E; [done|].
  symmetry. by apply truthy_false.
Qed.

(** ** Lines of a string *)

Lemma split_nonempty (sep : ascii) (s : string) : Str.split sep s <> [].
Proof.
  induction s as [|c s IH]; simpl; [done|].
  destruct (Ascii.eqb c sep); [done|]. by destruct (Str.split sep s).
Qed.

Lemma join_cons (sep piece : string) (pieces : list string) :
  pieces <> [] ->
  Str.join sep (piece :: pieces) = piece +:+ sep +:+ Str.join sep pieces.
Proof. by destruct pieces. Qed.

(** [s.split("\n").join("\n")] is [s]. *)
Lemma split_join (s : string) : Str.join Str.nl (Str.split Str.newline s) = s.
Proof.
  induction s as [|c s IH]; simpl; [done|].
  destruct (Ascii.eqb c Str.newline) eqn:Hc.
  - apply Ascii.eqb_eq in Hc as ->.
    rewrite join_cons by apply split_nonempty. by rewrite IH.
  - pose proof (split_nonempty Str.newline s) as Hne.
    destruct (Str.split Str.newline s) as [|w ws]; [done|].
    destruct ws as [|w' ws].
    + simpl in *. by rewrite IH.
    + rewrite join_cons in IH by done. rewrite join_cons by done.
      change (String c w +:+ Str.nl +:+ Str.join Str.nl (w' :: ws))
        with (String c (w +:+ Str.nl +:+ Str.join Str.nl (w' :: ws))).
      by rewrite IH.
Qed.

Lemma split_first_line (first rest : string) :
  oneLine first = true ->
  Str.split Str.newline (first +:+ Str.nl +:+ rest)
  = first :: Str.split Str.newline rest.
Proof.
  induction first as [|c first IH]; intros Hone; simpl in *.
  - done.
  - apply andb_true_iff in Hone as [Hc Hone]. apply negb_true_iff in Hc.
    change (String c first +:+ Str.nl +:+ rest)
      with (String c (first +:+ Str.nl +:+ rest)).
    simpl. rewrite Hc, (IH Hone). done.
Qed.

Lemma split_one_line (s : string) :
  oneLine s = true -> Str.split Str.newline s = [s].
Proof.
  induction s as [|c s IH]; intros Hone; simpl in *; [done|].
  apply andb_true_iff in Hone as [Hc Hone]. apply negb_true_iff in Hc.
  by rewrite Hc, (IH Hone).
Qed.

(** ** Error inspector *)

(** C8. [formatErrorMessage] returns the message of the error when it is
    defined and non-empty, otherwise its name when that is non-empty,
    otherwise the literal "Error"; so an error with message "" and name
    "TypeError" is displayed as "TypeError", and no error is displayed as
    the empty string. *)
Theorem formatErrorMessage_fallback (error : ErrorObj) :
  (forall m, message error = Some m -> m <> "" -> formatErrorMessage error = m) /\
  (message error = None \/ message error = Some "" ->
   name error <> "" -> formatErrorMessage error = name error) /\
  (message error = None \/ message error = Some "" ->
   name error = "" -> formatErrorMessage error = "Error") /\
  (message error = Some "" -> name error = "TypeError" ->
   formatErrorMessage error = "TypeError") /\
  formatErrorMessage error <> "".
Proof.
  assert (forall n, n <> "" -> Str.orElse n "Error" = n) as Hname.
  { intros n Hn. unfold Str.orElse. by apply truthy_true in Hn as ->. }
  unfold formatErrorMessage. split_and!.
  - intros m -> Hm. by apply truthy_true in Hm as ->.
  - intros [-> | ->] Hn; simpl; by apply Hname.
  - intros [-> | ->] ->; reflexivity.
  - intros -> ->. reflexivity.
  - destruct (message error) as [m|]; [|by apply orElse_nonempty].
    destruct (Str.truthy m) eqn:Hm; [by apply truthy_true|by apply orElse_nonempty].
Qed.

Lemma formatErrorMessage_fallback_witness :
  formatErrorMessage (mkError "TypeError" (Some "") None VUndefined) = "TypeError"
  /\ formatErrorMessage (mkError "TypeError" (Some "boom") None VUndefined) = "boom"
  /\ formatErrorMessage (mkError "" None None VUndefined) = "Error".
Proof.
  split_and!.
  - apply (formatErrorMessage_fallback (mkError "TypeError" (Some "") None VUndefined));
      reflexivity.
  - apply (formatErrorMessage_fallback (mkError "TypeError" (Some "boom") None VUndefined));
      [reflexivity | discriminate].
  - apply (formatErrorMessage_fallback (mkError "" None None VUndefined));
      [left; reflexivity | reflexivity].
Defined.

Lemma asError_Some (h : Heap) (v : Value) (l : loc) (e : ErrorObj) :
  asError h v = Some (l, e) <-> v = VRef l /\ h !! l = Some (OError e).
Proof.
  unfold asError. split.
  - destruct v as [| | | | | | | |l0]; try discriminate.
    destruct (h !! l0) as [[]|] eqn:E; try discriminate.
    by intros [= <- <-].
  - by intros [-> ->].
Qed.

(** Distinct references into a heap are no more than its objects. *)
Lemma valid_locs_bounded (h : Heap) (ls : list loc) :
  NoDup ls -> Forall (fun l => is_Some (h !! l)) ls ->
  List.length ls <= List.length h.
Proof.
  intros Hnd Hall.
  replace (List.length h) with (List.length (seq 0 (List.length h)))
    by apply length_seq.
  apply submseteq_length, NoDup_submseteq; [done|].
  intros l Hl. rewrite Forall_forall in Hall. apply Hall in Hl.
  apply lookup_lt_is_Some in Hl. apply elem_of_seq. lia.
Qed.

(** The loop invariant of [getErrorCauses]: [seen] holds the root and the
    causes found so far, which are distinct errors of the heap; the fuel
    left covers the objects not yet seen. *)
Lemma causesLoop_spec (h : Heap) (root : loc) :
  forall fuel causes seen current,
    seen = {[root]} ∪ list_to_set causes.*1 ->
    NoDup (root :: causes.*1) ->
    Forall (validCause h) causes ->
    List.length h < fuel + List.length causes ->
    exists cs, causesLoop fuel h seen causes current = Some cs
               /\ NoDup (root :: cs.*1) /\ Forall (validCause h) cs.
Proof.
  induction fuel as [|fuel IH]; intros causes seen current Hseen Hnd Hvalid Hfuel.
  - exfalso.
    assert (List.length causes.*1 <= List.length h) as Hle.
    { apply valid_locs_bounded; [by apply NoDup_cons in Hnd as [_ ?]|].
      apply Forall_fmap. eapply Forall_impl; [exact Hvalid|].
      intros c Hc. simpl. unfold validCause in Hc. by rewrite Hc. }
    rewrite length_fmap in Hle. lia.
  - simpl. destruct (asError h current) as [[l e]|] eqn:Hcur; [|eauto].
    case_bool_decide as Hin; [eauto|].
    apply asError_Some in Hcur as [-> Hl].
    apply IH.
    + rewrite fmap_app, list_to_set_app_L. simpl. set_solver.
    + rewrite fmap_app. simpl.
      apply NoDup_cons in Hnd as [Hroot Hnd].
      apply NoDup_cons; split.
      * rewrite elem_of_app, list_elem_of_singleton. set_solver.
      * apply NoDup_app; split_and!; [done| |apply NoDup_singleton].
        intros x Hx ->%list_elem_of_singleton. set_solver.
    + apply Forall_app; split; [done|]. by apply Forall_singleton.
    + rewrite length_app. simpl. lia.
Qed.

(** [getErrorCauses] returns, and its result has no repeated error. *)
Lemma getErrorCauses_total (h : Heap) (error : loc) :
  exists cs, getErrorCauses h error = Some cs
             /\ NoDup (error :: cs.*1) /\ Forall (validCause h) cs.
Proof.
  apply causesLoop_spec; simpl.
  - set_solver.
  - apply NoDup_singleton.
  - constructor.
  - lia.
Qed.

Lemma causesLoop_unfold (fuel : nat) (h : Heap) (seen : gset loc)
    (causes : list (loc * ErrorObj)) (current : Value) :
  causesLoop (S fuel) h seen causes current
  = match asError h current with
    | None => Some causes
    | Some (l, e) =>
        if bool_decide (l ∈ seen) then Some causes
        else causesLoop fuel h ({[l]} ∪ seen) (causes ++ [(l, e)]) (cause e)
    end.
Proof. reflexivity. Qed.

(** More fuel does not change a result. *)
Lemma causesLoop_more_fuel (h : Heap) :
  forall fuel seen causes current cs,
    causesLoop fuel h seen causes current = Some cs ->
    forall fuel', fuel <= fuel' ->
    causesLoop fuel' h seen causes current = Some cs.
Proof.
  induction fuel as [|fuel IH]; intros seen causes current cs Hrun fuel' Hle;
    [discriminate|].
  destruct fuel' as [|fuel']; [lia|]. simpl in *.
  destruct (asError h current) as [[l e]|]; [|done].
  case_bool_decide; [done|]. apply (IH _ _ _ _ Hrun). lia.
Qed.

(** C2. [getErrorCauses] terminates on every heap and every error (the
    fuel taken from the size of the heap is enough, and more fuel gives
    the same chain); the root and the errors of the chain are pairwise
    distinct, so each error is visited at most once; for [A.cause === A]
    the chain is empty, and for [A.cause = B], [B.cause = A] it is
    exactly [[B]]. *)
Theorem getErrorCauses_terminates_without_repeats (h : Heap) (a : loc) :
  exists chain,
    getErrorCauses h a = Some chain /\
    (forall fuel, S (List.length h) <= fuel ->
       causesLoop fuel h {[a]} [] (causeOf h a) = Some chain) /\
    NoDup (a :: chain.*1) /\
    Forall (validCause h) chain /\
    (causeOf h a = VRef a -> chain = []) /\
    (forall b eb, b <> a -> causeOf h a = VRef b ->
       h !! b = Some (OError eb) -> cause eb = VRef a -> chain = [(b, eb)]).
Proof.
  destruct (getErrorCauses_total h a) as (chain & Hrun & Hnd & Hvalid).
  exists chain. split_and!; try done.
  - intros fuel Hle. by apply (causesLoop_more_fuel h _ _ _ _ _ Hrun).
  - intros Hself. unfold getErrorCauses in Hrun. rewrite Hself in Hrun.
    assert (exists ea, asError h (VRef a) = Some (a, ea)) as [ea Ha].
    { unfold causeOf in Hself. unfold asError.
      destruct (h !! a) as [[ea| |]|]; try discriminate. by exists ea. }
    rewrite causesLoop_unfold, Ha in Hrun.
    rewrite bool_decide_eq_true_2 in Hrun by set_solver.
    congruence.
  - intros b eb Hne Hab Hb Hba. unfold getErrorCauses in Hrun.
    rewrite Hab in Hrun.
    assert (asError h (VRef b) = Some (b, eb)) as Hb' by by apply asError_Some.
    assert (exists ea, asError h (VRef a) = Some (a, ea)) as [ea Ha].
    { unfold causeOf in Hab. unfold asError.
      destruct (h !! a) as [[ea| |]|]; try discriminate. by exists ea. }
    assert (exists n, List.length h = S n) as [n Hn].
    { destruct h; [done|]. by eexists. }
    rewrite Hn, causesLoop_unfold, Hb' in Hrun.
    rewrite bool_decide_eq_false_2 in Hrun by set_solver.
    rewrite causesLoop_unfold, Hba, Ha in Hrun.
    rewrite bool_decide_eq_true_2 in Hrun by set_solver.
    simpl in Hrun. congruence.
Qed.

Lemma getErrorCauses_terminates_without_repeats_witness :
  (exists chain, getErrorCauses selfCauseHeap 0 = Some chain /\ chain = [])
  /\ (exists chain, getErrorCauses cyclicCauseHeap 0 = Some chain /\ chain.*1 = [1]).
Proof.
  split.
  - destruct (getErrorCauses_terminates_without_repeats selfCauseHeap 0)
      as (chain & Hrun & _ & _ & _ & Hself & _).
    exists chain. split; [exact Hrun|]. apply Hself. reflexivity.
  - destruct (getErrorCauses_terminates_without_repeats cyclicCauseHeap 0)
      as (chain & Hrun & _ & _ & _ & _ & Hcycle).
    exists chain. split; [exact Hrun|].
    rewrite (Hcycle 1 (mkError "Error" (Some "Error 2") None (VRef 0)));
      [reflexivity | lia | reflexivity | reflexivity | reflexivity].
Defined.

(** ** Running the text path *)

Section Runs.

Variable env : Env.
Variable lg : Logger.

Lemma advance_advance w evs1 n1 k1 evs2 n2 k2 :
  advance (advance w evs1 n1 k1) evs2 n2 k2
  = advance w (evs1 ++ evs2) (n1 + n2) (k1 + k2).
Proof. unfold advance; simpl. f_equal; [by rewrite app_assoc | lia | lia]. Qed.

Lemma ret_run {A} (a : A) (w : World) : ret a w = (Returned a, w).
Proof. reflexivity. Qed.

Lemma advance_nil w : advance w [] 0 0 = w.
Proof. destruct w; unfold advance; simpl. f_equal; [apply app_nil_r | lia | lia]. Qed.

Lemma trace_advance w evs n k : trace (advance w evs n k) = trace w ++ evs.
Proof. reflexivity. Qed.

Lemma writeLine_run level m w :
  writeLine lg level m w
  = (Returned tt, advance w [Write (streamFor lg level) (m +:+ Str.nl)] 0 0).
Proof. unfold writeLine, emit, advance. do 2 f_equal; lia. Qed.

Lemma buildPrefix_run level w :
  buildPrefix env lg level w
  = (Returned (prefixAt lg (toISOString env (clockReads w)) level), advance w [] 1 0).
Proof.
  unfold buildPrefix, bind, nowISO, ret, advance; simpl.
  do 2 f_equal; [by rewrite app_nil_r | lia | lia].
Qed.

Lemma captureStack_run w :
  captureStack env w = (Returned (nativeStackAt env w), advance w [] 0 1).
Proof.
  unfold captureStack, nativeStackAt, advance.
  do 2 f_equal; [by rewrite app_nil_r | lia | lia].
Qed.

Lemma nativeStackAt_advance w evs n :
  nativeStackAt env (advance w evs n 0) = nativeStackAt env w.
Proof.
  unfold nativeStackAt, advance; simpl.
  by replace (stackCaptures w + 0) with (stackCaptures w) by lia.
Qed.

Lemma forEach_writeLine_run {A} level (f : A -> string) xs : forall w,
  forEach xs (fun x => writeLine lg level (f x)) w
  = (Returned tt,
     advance w (map (fun x => Write (streamFor lg level) (f x +:+ Str.nl)) xs) 0 0).
Proof.
  induction xs as [|x xs IH]; intros w; simpl.
  - unfold ret. by rewrite advance_nil.
  - unfold bind. rewrite writeLine_run, IH, advance_advance. done.
Qed.

Lemma logStack_run level stack indent w :
  logStack env lg level stack indent w
  = (Returned tt,
     advance w (map (fun line =>
                       Write (streamFor lg level)
                         (prefixAt lg (toISOString env (clockReads w)) level
                            +:+ indent +:+ line +:+ Str.nl))
                    (printedLines stack)) 1 0).
Proof.
  unfold logStack. unfold bind at 1. rewrite buildPrefix_run.
  rewrite forEach_writeLine_run, advance_advance. simpl.
  unfold printedLines. do 2 f_equal.
  apply map_ext. intros line. by rewrite !append_assoc.
Qed.

(** [logCauseChain] writes one line per cause, and always returns. *)
Lemma logCauseChain_run h level error w :
  exists causes,
    getErrorCauses h error = Some causes /\
    logCauseChain env lg h level error w
    = (Returned tt,
       advance w (map (fun c =>
                         Write (streamFor lg level)
                           (prefixAt lg (toISOString env (clockReads w)) level
                              +:+ "  Caused by: " +:+ formatErrorMessage c.2 +:+ Str.nl))
                      causes) 1 0).
Proof.
  destruct (getErrorCauses_total h error) as (causes & Hc & _).
  exists causes. split; [done|].
  unfold logCauseChain. rewrite Hc. unfold bind at 1. simpl.
  unfold bind at 1. rewrite buildPrefix_run.
  rewrite forEach_writeLine_run, advance_advance. simpl.
  do 2 f_equal. apply map_ext. intros c. by rewrite !append_assoc.
Qed.

Lemma Forall_writesTo_map {A} s (f : A -> string) xs :
  Forall (writesTo s) (map (fun x => Write s (f x)) xs).
Proof. apply Forall_fmap, Forall_forall. intros x _. by exists (f x). Qed.

(** The loop over the error-like values, lines 377-382. *)
Lemma errorsLoop_run h level (errors : list (loc * ErrorObj)) : forall w,
  exists evs n,
    forEach errors (fun error =>
      logCauseChain env lg h level (fst error) ;;;
      match stack (snd error) with
      | Some s => when (Str.truthy s) (logStack env lg level s "  ")
      | None => ret tt
      end) w
    = (Returned tt, advance w evs n 0)
    /\ Forall (writesTo (streamFor lg level)) evs.
Proof.
  induction errors as [|[l e] errors IH]; intros w.
  - exists [], 0. simpl. unfold ret. by rewrite advance_nil.
  - simpl. destruct (logCauseChain_run h level l w) as (causes & _ & Hrun).
    unfold bind at 1. unfold bind at 1. rewrite Hrun.
    pose proof (Forall_writesTo_map (streamFor lg level)
      (fun c : loc * ErrorObj =>
         prefixAt lg (toISOString env (clockReads w)) level
           +:+ "  Caused by: " +:+ formatErrorMessage c.2 +:+ Str.nl) causes) as Hcauses.
    simpl in Hcauses.
    destruct (stack e) as [s|]; [destruct (Str.truthy s)|]; simpl.
    + rewrite logStack_run.
      match goal with
      | |- context [forEach errors _ ?w1] =>
          destruct (IH w1) as (evs & n & -> & Hevs)
      end.
      rewrite !advance_advance. eexists _, _. split; [reflexivity|].
      rewrite !Forall_app. split_and!; [done| |done].
      apply Forall_writesTo_map.
    + match goal with
      | |- context [forEach errors _ ?w1] =>
          destruct (IH w1) as (evs & n & -> & Hevs)
      end.
      rewrite advance_advance. eexists _, _. split; [reflexivity|].
      by rewrite Forall_app.
    + match goal with
      | |- context [forEach errors _ ?w1] =>
          destruct (IH w1) as (evs & n & -> & Hevs)
      end.
      rewrite advance_advance. eexists _, _. split; [reflexivity|].
      by rewrite Forall_app.
Qed.

(** A call below the minimum level does nothing. *)
Lemma logInternal_filtered h level message args ctx w :
  (rank level < rank (logLevel lg))%Z ->
  logInternal env lg h level message args ctx w = (Returned tt, w).
Proof.
  intros Hlt. unfold logInternal. fold (rank level). fold (rank (logLevel lg)).
  apply Z.ltb_lt in Hlt. by rewrite Hlt.
Qed.

Lemma finish_run level w evs n k :
  (if String.eqb level "fatal" then processExit 1 else ret tt) (advance w evs n k)
  = (expectedOutcome level, advance w (evs ++ exitEvents level) n k).
Proof.
  unfold expectedOutcome, exitEvents. destruct (String.eqb level "fatal").
  - unfold processExit, advance; simpl. by rewrite app_assoc.
  - unfold ret. by rewrite app_nil_r.
Qed.

(** The text path, lines 363-395: the primary line, then (error and fatal
    only) more lines on the same stream, ending with the stack section when
    the native stack is not empty; then the exit, for fatal. *)
Lemma logInternal_text h level message args ctx w :
  String.eqb (outputFormat lg) "jsonl" = false ->
  (rank (logLevel lg) <= rank level)%Z ->
  exists extra n k,
    logInternal env lg h level message args ctx w
    = (expectedOutcome level,
       advance w (Write (streamFor lg level) (primaryLine env lg h level message args w)
                  :: extra ++ exitEvents level) n k)
    /\ Forall (writesTo (streamFor lg level)) extra
    /\ (isErrorLevel level = false -> extra = [])
    /\ (isErrorLevel level = true ->
        Str.truthy (nativeStackAt env w) = true ->
        exists before m, extra = before ++ stackSection env lg level w m).
Proof.
  intros Hfmt Hrank. unfold logInternal.
  fold (rank level). fold (rank (logLevel lg)).
  apply Z.ltb_ge in Hrank. rewrite Hrank, Hfmt.
  unfold bind at 1. rewrite buildPrefix_run.
  unfold bind at 1. rewrite writeLine_run, advance_advance.
  fold (isErrorLevel level). fold (primaryLine env lg h level message args w).
  unfold bind at 1.
  destruct (isErrorLevel level) eqn:Herr; simpl.
  - unfold bind at 1.
    match goal with
    | |- context [forEach ?errs _ ?w1] =>
        destruct (errorsLoop_run h level errs w1) as (evs & n & -> & Hevs)
    end.
    unfold bind at 1.
    rewrite captureStack_run, !advance_advance, nativeStackAt_advance.
    destruct (Str.truthy (nativeStackAt env w)) eqn:Hns; simpl.
    + unfold bind at 1. rewrite writeLine_run, logStack_run, !advance_advance.
      rewrite finish_run. simpl.
      eexists (evs ++ stackSection env lg level w _), _, _.
      split_and!.
      * unfold stackSection. do 2 f_equal. f_equal. by rewrite app_nil_r.
      * rewrite Forall_app. split; [done|]. unfold stackSection.
        constructor; [by eexists|]. apply Forall_writesTo_map.
      * done.
      * intros _ _. by eexists evs, _.
    + rewrite finish_run.
      exists evs. eexists _, _. split_and!; [|done|done|congruence].
      do 2 f_equal. simpl. f_equal. by rewrite app_nil_r.
  - rewrite finish_run. exists [], 1, 0.
    split_and!; [done|constructor|done|discriminate].
Qed.

End Runs.

(** ** Building the JSON record *)

Lemma allocAll_app (objs : list Obj) : forall h,
  allocAll h objs = (seq (List.length h) (List.length objs), h ++ objs).
Proof.
  induction objs as [|o objs IH]; intros h; simpl.
  - by rewrite app_nil_r.
  - rewrite IH, length_app. simpl.
    replace (List.length h + 1) with (S (List.length h)) by lia.
    by rewrite <- app_assoc.
Qed.

Lemma Forall_notError_map {A} (f : A -> Obj) (xs : list A) :
  (forall x, notError (f x)) -> Forall notError (map f xs).
Proof. intros Hf. apply Forall_fmap, Forall_forall. intros x _. apply Hf. Qed.

(** [serializeError] returns, and only adds objects to the heap, none of
    which is an error. *)
Lemma serializeError_total h l e :
  exists d ext, serializeError h l e = Some (d, h ++ ext) /\ Forall notError ext.
Proof.
  unfold serializeError.
  destruct (getErrorCauses_total h l) as (causes & -> & _).
  destruct (Nat.ltb 0 (List.length causes)).
  - rewrite allocAll_app. unfold alloc. eexists _, _. split.
    + rewrite <- !app_assoc. reflexivity.
    + rewrite !Forall_app. split_and!.
      * apply Forall_notError_map. by intros c e'.
      * apply Forall_singleton. by intros e'.
      * apply Forall_singleton. by intros e'.
  - unfold alloc. eexists _, _. split; [reflexivity|].
    apply Forall_singleton. by intros e'.
Qed.

Lemma omap_asError_nonempty h (vs : list Value) :
  Nat.ltb 0 (List.length (omap (asError h) vs)) = existsb (isError h) vs.
Proof.
  induction vs as [|v vs IH]; [done|]. simpl. unfold isError at 1.
  destruct (asError h v); simpl; [done|]. apply IH.
Qed.

Lemma isError_alloc_array h items v :
  isError (h ++ [OArray items]) v = isError h v.
Proof.
  unfold isError, asError. destruct v as [| | | | | | | |l]; try done.
  destruct (decide (l < List.length h)) as [Hlt|Hge].
  - by rewrite lookup_app_l.
  - rewrite lookup_app_r by lia. rewrite (lookup_ge_None_2 h) by lia.
    by destruct (l - List.length h) as [|[|?]].
Qed.

Lemma existsb_isError_alloc h items vs :
  existsb (isError (h ++ [OArray items])) vs = existsb (isError h) vs.
Proof.
  induction vs as [|v vs IH]; simpl; [done|].
  by rewrite isError_alloc_array, IH.
Qed.

Lemma args_nonempty (args : list Value) :
  Nat.ltb 0 (List.length args) = true <-> args <> [].
Proof. destruct args; simpl; split; (done || discriminate). Qed.

Lemma lookup_snoc {A} (xs : list A) (x : A) : (xs ++ [x]) !! List.length xs = Some x.
Proof. by rewrite lookup_app_r, Nat.sub_diag. Qed.

Section Json.

Variable env : Env.
Variable lg : Logger.

Lemma serializeErrors_total (errors : list (loc * ErrorObj)) : forall h,
  exists ds ext, serializeErrors errors h = Some (ds, h ++ ext) /\ Forall notError ext.
Proof.
  induction errors as [|[l e] errors IH]; intros h; simpl.
  - exists [], []. by rewrite app_nil_r.
  - destruct (serializeError_total h l e) as (d & ext1 & -> & Hext1).
    destruct (IH (h ++ ext1)) as (ds & ext2 & -> & Hext2).
    eexists _, _. split; [by rewrite <- app_assoc|]. by apply Forall_app.
Qed.

Local Ltac shape :=
  destruct (Str.truthy (module lg)), (_ ≫= duration), (_ ≫= durationMs);
  simpl; rewrite <- ?app_assoc; reflexivity.

Lemma baseProps_shape h timestamp level message args context argsRef :
  (args <> [] -> argsRef = List.length h) ->
  baseProps lg h timestamp level message args context
  = ([("timestamp", VString timestamp); ("level", VString level); ("message", message)]
     ++ (if Str.truthy (module lg) then [("module", VString (module lg))] else [])
     ++ (if Nat.ltb 0 (List.length args) then [("args", VRef argsRef)] else [])
     ++ match context ≫= duration with
        | Some d => [("duration", VString d)]
        | None => []
        end
     ++ match context ≫= durationMs with
        | Some ms => [("durationMs", VNumber ms)]
        | None => []
        end,
     if Nat.ltb 0 (List.length args) then h ++ [OArray args] else h).
Proof.
  intros Hargs. unfold baseProps.
  destruct (Nat.ltb 0 (List.length args)) eqn:Hlen.
  - rewrite Hargs by by apply args_nonempty. unfold alloc.
    destruct (Str.truthy (module lg)), (_ ≫= duration), (_ ≫= durationMs);
      simpl; rewrite <- ?app_assoc; reflexivity.
  - destruct (Str.truthy (module lg)), (_ ≫= duration), (_ ≫= durationMs);
      simpl; rewrite <- ?app_assoc; reflexivity.
Qed.

(** [buildJsonRecord] returns a record with the properties of
    [expectedProps], reads the clock once, captures the stack for error
    and fatal only, and writes nothing; the heap only grows, by objects
    that are not errors, and holds the [args] array. *)
Lemma buildJsonRecord_run h level message args context w :
  exists argsRef errorsRef h' record,
    buildJsonRecord env lg h level message args context w
    = (Returned (record, h' ++ [OPlain (expectedProps lg h
                   (toISOString env (clockReads w))
                   (if isErrorLevel level then nativeStackAt env w else "")
                   level message args context argsRef errorsRef)]),
       advance w [] 1 (if isErrorLevel level then 1 else 0))
    /\ record = List.length h'
    /\ (exists ext, h' = h ++ ext /\ Forall notError ext)
    /\ (args <> [] -> h' !! argsRef = Some (OArray args)).
Proof.
  assert (forall items, notError (OArray items)) as Harray by by intros items e.
  unfold buildJsonRecord, expectedProps. fold (isErrorLevel level).
  unfold bind at 1. unfold nowISO at 1.
  rewrite (baseProps_shape h _ level message args context (List.length h)) by done.
  set (w1 := mkWorld (trace w) (S (clockReads w)) (stackCaptures w)).
  assert (nativeStackAt env w1 = nativeStackAt env w) as Hns by reflexivity.
  assert (forall k, advance w1 [] 0 k = advance w [] 1 k) as Hadv.
  { intros k. unfold advance; simpl. f_equal. lia. }
  set (h1 := if Nat.ltb 0 (List.length args) then h ++ [OArray args] else h).
  assert (exists ext1, h1 = h ++ ext1 /\ Forall notError ext1) as (ext1 & Hh1 & Hext1).
  { subst h1. destruct (Nat.ltb 0 (List.length args)).
    - eexists. split; [reflexivity|by apply Forall_singleton].
    - exists []. by rewrite app_nil_r. }
  assert (args <> [] -> h1 !! List.length h = Some (OArray args)) as Hlook.
  { intros Hne. subst h1. apply args_nonempty in Hne as ->. apply lookup_snoc. }
  assert (existsb (isError h1) (message :: args)
          = existsb (isError h) (message :: args)) as Hsame.
  { subst h1. destruct (Nat.ltb 0 (List.length args)); [|done].
    apply existsb_isError_alloc. }
  destruct (isErrorLevel level).
  - unfold bind at 1. rewrite omap_asError_nonempty, Hsame.
    destruct (existsb (isError h) (message :: args)).
    + destruct (serializeErrors_total (omap (asError h1) (message :: args)) h1)
        as (ds & ext & Hser & Hext).
      unfold bind at 1. rewrite Hser. simpl.
      unfold bind at 1. rewrite captureStack_run, Hns, Hadv. simpl.
      exists (List.length h), (List.length (h1 ++ ext)), ((h1 ++ ext) ++ [OArray ds]).
      eexists. split_and!.
      * unfold ret, alloc. do 3 f_equal. rewrite <- ?app_assoc. reflexivity.
      * reflexivity.
      * rewrite Hh1. eexists. split; [rewrite <- !app_assoc; reflexivity|].
        rewrite !Forall_app. split_and!; [done|done|by apply Forall_singleton].
      * intros Hne. apply lookup_app_l_Some, lookup_app_l_Some. by apply Hlook.
    + rewrite ret_run. unfold bind at 1. rewrite captureStack_run, Hns, Hadv. simpl.
      exists (List.length h), 0, h1. eexists. split_and!.
      * unfold ret, alloc. do 3 f_equal. rewrite <- ?app_assoc. reflexivity.
      * reflexivity.
      * by exists ext1.
      * done.
  - exists (List.length h), 0, h1. eexists. split_and!.
    + rewrite ret_run, <- (Hadv 0), advance_nil. unfold alloc.
      do 4 f_equal. by rewrite <- ?app_assoc, !app_nil_r.
    + reflexivity.
    + by exists ext1.
    + done.
Qed.

(** The JSON path, lines 353-361: the record is built, and what follows
    depends on how its stringification ends. *)
Lemma logInternal_json h level message args context w :
  String.eqb (outputFormat lg) "jsonl" = true ->
  (rank (logLevel lg) <= rank level)%Z ->
  exists record h' w1,
    buildJsonRecord env lg h level message args context w
    = (Returned (record, h'), w1)
    /\ trace w1 = trace w
    /\ logInternal env lg h level message args context w
       = match stringifyJsonRecord env h' record with
         | Returned line =>
             (expectedOutcome level,
              advance w1 (Write (streamFor lg level) (template line +:+ Str.nl)
                          :: exitEvents level) 0 0)
         | Threw exc => (Threw exc, w1)
         | Exited => (Exited, w1)
         | OutOfFuel => (OutOfFuel, w1)
         end.
Proof.
  intros Hfmt Hrank.
  destruct (buildJsonRecord_run h level message args context w)
    as (argsRef & errorsRef & h' & record & Hbuild & _).
  eexists _, _, _. split; [exact Hbuild|]. split.
  - simpl. apply app_nil_r.
  - unfold logInternal. fold (rank level). fold (rank (logLevel lg)).
    apply Z.ltb_ge in Hrank. rewrite Hrank, Hfmt.
    unfold bind at 1. rewrite Hbuild. simpl.
    unfold bind at 1. unfold liftOutcome at 1.
    destruct (stringifyJsonRecord env _ record) as [line| | |]; try reflexivity.
    unfold bind at 1. rewrite writeLine_run, finish_run. reflexivity.
Qed.

End Json.

(** ** Level filter, routing and exit *)

(** Whatever the mode and however the call ends, the events of one call
    are: nothing (filtered, or the call threw); or writes on the stream of
    the level, the first being the primary line, followed by the exit for
    fatal. *)
Lemma logInternal_events env lg h level message args context w :
  exists evs w',
    (logInternal env lg h level message args context w).2 = w'
    /\ trace w' = trace w ++ evs
    /\ (evs = [] \/
        exists primary extra,
          evs = Write (streamFor lg level) primary :: extra ++ exitEvents level
          /\ Forall (writesTo (streamFor lg level)) extra
          /\ (rank (logLevel lg) <= rank level)%Z
          /\ (isErrorLevel level = false -> extra = [])).
Proof.
  destruct (Z.lt_ge_cases (rank level) (rank (logLevel lg))) as [Hlt|Hge].
  - rewrite logInternal_filtered by done. exists [], w.
    split_and!; [done|by rewrite app_nil_r|by left].
  - destruct (String.eqb (outputFormat lg) "jsonl") eqn:Hfmt.
    + destruct (logInternal_json env lg h level message args context w Hfmt Hge)
        as (record & h' & w1 & _ & Htrace & ->).
      destruct (stringifyJsonRecord env h' record) as [line| | |]; simpl.
      * eexists _, _. split_and!; [done|simpl; by rewrite Htrace|].
        right. exists (template line +:+ Str.nl), [].
        split_and!; [done|constructor|done|done].
      * exists [], w1. split_and!; [done|by rewrite Htrace, app_nil_r|by left].
      * exists [], w1. split_and!; [done|by rewrite Htrace, app_nil_r|by left].
      * exists [], w1. split_and!; [done|by rewrite Htrace, app_nil_r|by left].
    + destruct (logInternal_text env lg h level message args context w Hfmt Hge)
        as (extra & n & k & -> & Hextra & Hplain & _).
      eexists _, _. split_and!; [done|done|].
      right. by eexists _, extra.
Qed.

(** C6. Stream routing.  In text mode the levels debug and info go to the
    primary stream (stdout) and warn, error and fatal to the secondary
    stream (stderr); in JSON mode without the split flag every level goes
    to the primary stream; with the split flag the text-mode routing
    applies.  Every line a log call writes goes to the stream so chosen. *)
Theorem stream_routing env lg h level message args context w :
  (outputFormat lg = "text" -> level = "debug" \/ level = "info" ->
   streamFor lg level = Stdout) /\
  (outputFormat lg = "text" ->
   level = "warn" \/ level = "error" \/ level = "fatal" ->
   streamFor lg level = Stderr) /\
  (outputFormat lg = "jsonl" -> jsonlSplitStreams lg = false ->
   streamFor lg level = Stdout) /\
  (outputFormat lg = "jsonl" -> jsonlSplitStreams lg = true ->
   (level = "debug" \/ level = "info" -> streamFor lg level = Stdout) /\
   (level = "warn" \/ level = "error" \/ level = "fatal" ->
    streamFor lg level = Stderr)) /\
  (exists evs,
     trace (logInternal env lg h level message args context w).2 = trace w ++ evs
     /\ forall s chunk, Write s chunk ∈ evs -> s = streamFor lg level).
Proof.
  unfold streamFor. split_and!.
  - intros -> [-> | ->]; reflexivity.
  - intros -> [-> | [-> | ->]]; reflexivity.
  - intros -> ->. reflexivity.
  - intros -> ->. split.
    + intros [-> | ->]; reflexivity.
    + intros [-> | [-> | ->]]; reflexivity.
  - destruct (logInternal_events env lg h level message args context w)
      as (evs & w' & -> & Htrace & Hevs).
    exists evs. split; [done|]. intros s chunk Hin.
    destruct Hevs as [-> | (primary & extra & -> & Hextra & _)].
    + by apply elem_of_nil in Hin.
    + apply elem_of_cons in Hin as [[= -> _] | Hin]; [done|].
      apply elem_of_app in Hin as [Hin | Hin].
      * rewrite Forall_forall in Hextra. destruct (Hextra _ Hin) as [c [= -> _]]. done.
      * unfold exitEvents in Hin. destruct (String.eqb level "fatal").
        -- apply list_elem_of_singleton in Hin. discriminate.
        -- by apply elem_of_nil in Hin.
Qed.

Lemma stream_routing_witness :
  streamFor (sampleLogger "text" "debug") "info" = Stdout
  /\ streamFor (sampleLogger "text" "debug") "error" = Stderr
  /\ streamFor (sampleLogger "jsonl" "debug") "error" = Stdout.
Proof.
  split_and!.
  - destruct (stream_routing sampleEnv (sampleLogger "text" "debug") [] "info"
                VNull [] None initialWorld) as (Hout & _).
    apply Hout; [reflexivity | by right].
  - destruct (stream_routing sampleEnv (sampleLogger "text" "debug") [] "error"
                VNull [] None initialWorld) as (_ & Herr & _).
    apply Herr; [reflexivity | right; by left].
  - destruct (stream_routing sampleEnv (sampleLogger "jsonl" "debug") [] "error"
                VNull [] None initialWorld) as (_ & _ & Hunified & _).
    apply Hunified; reflexivity.
Defined.

(** ** Configuration errors *)

Lemma includes_spec (xs : list string) (x : string) :
  includes xs x = true <-> x ∈ xs.
Proof.
  unfold includes. rewrite existsb_exists. split.
  - intros (y & Hin & Heq). apply String.eqb_eq in Heq as ->.
    by apply list_elem_of_In.
  - intros Hin. exists x. split; [by apply list_elem_of_In|apply String.eqb_refl].
Qed.

Lemma includes_false (xs : list string) (x : string) :
  x ∉ xs -> includes xs x = false.
Proof.
  intros Hnot. destruct (includes xs x) eqn:E; [|done].
  by apply includes_spec in E.
Qed.

Lemma invalidLevelMessage_lists_levels (level : string) :
  Str.contains (invalidLevelMessage level) "debug, info, warn, error, fatal".
Proof.
  exists ("Invalid log level: " +:+ Str.dquote +:+ level +:+ Str.dquote
          +:+ ". Valid levels: "), "".
  unfold invalidLevelMessage. rewrite !append_assoc. reflexivity.
Qed.

Lemma invalidFormatMessage_lists_formats (format : string) :
  Str.contains (invalidFormatMessage format) "text, jsonl".
Proof.
  exists ("Invalid output format: " +:+ Str.dquote +:+ format +:+ Str.dquote
          +:+ ". Valid formats: "), "".
  unfold invalidFormatMessage. rewrite !append_assoc. reflexivity.
Qed.

(** C5. An invalid minimum level given to the constructor, an invalid
    output format given to the constructor, or an invalid level given to
    [setLogLevel] makes the call throw at once, with a message that
    contains the ordered list of the levels "debug, info, warn, error,
    fatal" (for a format, the list of the formats "text, jsonl").  No
    instance results from a failed construction, and a failed
    [setLogLevel] leaves the instance as it was: the minimum level is the
    previous one and every later log call behaves as before. *)
Theorem invalid_configuration_rejected (env : Env) (options : LoggerOptions)
    (lg : Logger) (level : string) :
  (default "info" (optLogLevel options) ∉ LOG_LEVELS ->
   exists msg, newLogger env options = Abrupt (ErrorExc msg)
               /\ Str.contains msg "debug, info, warn, error, fatal") /\
  (default "info" (optLogLevel options) ∈ LOG_LEVELS ->
   default "text" (optOutputFormat options) ∉ OUTPUT_FORMATS ->
   exists msg, newLogger env options = Abrupt (ErrorExc msg)
               /\ Str.contains msg "text, jsonl") /\
  (level ∉ LOG_LEVELS ->
   exists msg, setLogLevel lg level = (Abrupt (ErrorExc msg), lg)
               /\ Str.contains msg "debug, info, warn, error, fatal"
               /\ logLevel (setLogLevel lg level).2 = logLevel lg
               /\ forall h l message args context w,
                    logInternal env (setLogLevel lg level).2 h l message args context w
                    = logInternal env lg h l message args context w).
Proof.
  split_and!.
  - intros Hbad. unfold newLogger. rewrite (includes_false _ _ Hbad). simpl.
    eexists. split; [reflexivity|apply invalidLevelMessage_lists_levels].
  - intros Hlevel Hbad. unfold newLogger.
    apply includes_spec in Hlevel. rewrite Hlevel, (includes_false _ _ Hbad). simpl.
    eexists. split; [reflexivity|apply invalidFormatMessage_lists_formats].
  - intros Hbad. unfold setLogLevel. rewrite (includes_false _ _ Hbad). simpl.
    eexists. split_and!; [reflexivity|apply invalidLevelMessage_lists_levels|done|done].
Qed.

Lemma invalid_configuration_rejected_witness :
  (exists msg, newLogger sampleEnv (mkOptions (Some "invalid") None None None)
               = Abrupt (ErrorExc msg)
               /\ Str.contains msg "debug, info, warn, error, fatal")
  /\ (exists msg, newLogger sampleEnv (mkOptions None None (Some "xml") None)
                  = Abrupt (ErrorExc msg)
                  /\ Str.contains msg "text, jsonl")
  /\ (exists msg, setLogLevel (sampleLogger "text" "warn") "bad"
                  = (Abrupt (ErrorExc msg), sampleLogger "text" "warn")).
Proof.
  pose proof (fun options =>
    invalid_configuration_rejected sampleEnv options (sampleLogger "text" "warn") "bad")
    as Hrejected.
  split_and!.
  - destruct (Hrejected (mkOptions (Some "invalid") None None None)) as (Hlevel & _).
    apply Hlevel. intros Hin. apply includes_spec in Hin. discriminate.
  - destruct (Hrejected (mkOptions None None (Some "xml") None)) as (_ & Hformat & _).
    apply Hformat.
    + apply includes_spec. reflexivity.
    + intros Hin. apply includes_spec in Hin. discriminate.
  - destruct (Hrejected (mkOptions None None None None)) as (_ & _ & Hset).
    destruct Hset as (msg & Hmsg & _).
    + intros Hin. apply includes_spec in Hin. discriminate.
    + by exists msg.
Defined.

(** ** Keys of the JSON record *)

Lemma getKey_app (k : string) (xs ys : list (string * Value)) :
  getKey k (xs ++ ys)
  = match getKey k xs with Some v => Some v | None => getKey k ys end.
Proof.
  induction xs as [|[k' v] xs IH]; [done|]. simpl.
  by destruct (String.eqb k' k).
Qed.

Lemma is_Some_None_false {A} : ~ is_Some (@None A).
Proof. by intros [? ?]. Qed.

Lemma bind_field_Some {A} (context : option JsonLogContext)
    (field : JsonLogContext -> option A) :
  is_Some (context ≫= field) <-> exists c, context = Some c /\ is_Some (field c).
Proof.
  destruct context as [c|]; simpl; split.
  - intros H. by exists c.
  - by intros (c' & [= <-] & H).
  - by intros [? ?].
  - by intros (c' & ? & _).
Qed.

Lemma existsb_isError h (vs : list Value) :
  existsb (isError h) vs = true <-> exists v, v ∈ vs /\ isError h v = true.
Proof.
  rewrite existsb_exists. split; intros (v & Hin & Hv); exists v;
    (split; [by apply list_elem_of_In|done]).
Qed.

Section RecordKeys.

Variable lg : Logger.
Variables (h : Heap) (timestamp nativeStack level : string).
Variables (message : Value) (args : list Value).
Variable context : option JsonLogContext.
Variables argsRef errorsRef : loc.

Local Abbreviation props :=
  (expectedProps lg h timestamp nativeStack level message args context
     argsRef errorsRef).

Local Ltac segments :=
  unfold hasKey, expectedProps; rewrite ?getKey_app;
  destruct (Str.truthy (module lg)) eqn:Hmodule;
  destruct (Nat.ltb 0 (List.length args)) eqn:Hargs;
  destruct (context ≫= duration) as [d|] eqn:Hduration;
  destruct (context ≫= durationMs) as [ms|] eqn:HdurationMs;
  destruct (isErrorLevel level) eqn:Hlevel;
  destruct (existsb (isError h) (message :: args)) eqn:Herrors;
  simpl.

Lemma props_fixed_keys :
  getKey "timestamp" props = Some (VString timestamp)
  /\ getKey "level" props = Some (VString level)
  /\ getKey "message" props = Some message.
Proof. by segments. Qed.

Lemma props_module : hasKey "module" props <-> module lg <> "".
Proof.
  rewrite <- truthy_true.
  segments; split; intros H; first [done | by eexists | by destruct H].
Qed.

Lemma props_args :
  (hasKey "args" props <-> args <> [])
  /\ (args <> [] -> getKey "args" props = Some (VRef argsRef)).
Proof.
  rewrite <- args_nonempty.
  segments; (split; [split|]); intros H; first [done | by eexists | by destruct H].
Qed.

Lemma props_duration :
  hasKey "duration" props
  <-> exists c, context = Some c /\ is_Some (duration c).
Proof.
  rewrite <- bind_field_Some.
  segments; split; intros H; first [done | by eexists | by destruct H].
Qed.

Lemma props_durationMs :
  hasKey "durationMs" props
  <-> exists c, context = Some c /\ is_Some (durationMs c).
Proof.
  rewrite <- bind_field_Some.
  segments; split; intros H; first [done | by eexists | by destruct H].
Qed.

Lemma props_errors :
  hasKey "errors" props
  <-> isErrorLevel level = true
      /\ exists v, v ∈ message :: args /\ isError h v = true.
Proof.
  rewrite <- existsb_isError.
  segments; split; intros H; first [done | by eexists | by destruct H].
Qed.

Lemma props_nativeStack :
  (hasKey "nativeStack" props <-> isErrorLevel level = true)
  /\ (isErrorLevel level = true ->
      getKey "nativeStack" props = Some (VString nativeStack)).
Proof.
  segments; (split; [split|]); intros H; first [done | by eexists | by destruct H].
Qed.

End RecordKeys.

(** C7. The record built for a JSON line always has the keys timestamp,
    level and message (the level and the raw message as given); it has
    module exactly when the module label is set (non-empty); args exactly
    when there are extra arguments, and then args is the array of these
    arguments, in order; duration (resp. durationMs) exactly when a context
    is supplied that carries the duration (resp. the milliseconds), so
    neither without a context and both with a context that has both, as
    the timer supplies it: for these, the two keys are there exactly when a
    context is supplied; errors exactly at error or fatal level when the
    message or an argument is an error; nativeStack exactly at error or
    fatal level. *)
Theorem buildJsonRecord_keys env lg h level message args context w :
  exists record h' w' props,
    buildJsonRecord env lg h level message args context w
    = (Returned (record, h'), w')
    /\ h' !! record = Some (OPlain props)
    /\ getKey "timestamp" props = Some (VString (toISOString env (clockReads w)))
    /\ getKey "level" props = Some (VString level)
    /\ getKey "message" props = Some message
    /\ (hasKey "module" props <-> module lg <> "")
    /\ (hasKey "args" props <-> args <> [])
    /\ (args <> [] ->
        exists a, getKey "args" props = Some (VRef a) /\ h' !! a = Some (OArray args))
    /\ (hasKey "duration" props
        <-> exists c, context = Some c /\ is_Some (duration c))
    /\ (hasKey "durationMs" props
        <-> exists c, context = Some c /\ is_Some (durationMs c))
    /\ (context = None ->
        ~ hasKey "duration" props /\ ~ hasKey "durationMs" props)
    /\ (forall d ms, context = Some (mkContext (Some d) (Some ms)) ->
        getKey "duration" props = Some (VString d)
        /\ getKey "durationMs" props = Some (VNumber ms))
    /\ (context = None \/ (exists d ms, context = Some (mkContext (Some d) (Some ms))) ->
        (hasKey "duration" props <-> context <> None)
        /\ (hasKey "durationMs" props <-> context <> None))
    /\ (hasKey "errors" props
        <-> isErrorLevel level = true
            /\ exists v, v ∈ message :: args /\ isError h v = true)
    /\ (hasKey "nativeStack" props <-> isErrorLevel level = true).
Proof.
  destruct (buildJsonRecord_run env lg h level message args context w)
    as (argsRef & errorsRef & h' & record & Hbuild & -> & _ & Hargs).
  eexists _, _, _, _. split; [exact Hbuild|].
  split; [apply lookup_snoc|].
  split; [apply props_fixed_keys|].
  split; [apply props_fixed_keys|].
  split; [apply props_fixed_keys|].
  split; [apply props_module|].
  split; [apply props_args|].
  split.
  { intros Hne. exists argsRef. split; [by apply props_args|].
    apply lookup_app_l_Some. by apply Hargs. }
  split; [apply props_duration|].
  split; [apply props_durationMs|].
  split.
  { intros ->. split.
    - intros H. apply props_duration in H as (c & ? & _). discriminate.
    - intros H. apply props_durationMs in H as (c & ? & _). discriminate. }
  split.
  { intros d ms ->. unfold expectedProps. rewrite ?getKey_app.
    destruct (Str.truthy (module lg)), (Nat.ltb 0 (List.length args)); by simpl. }
  split.
  { rewrite props_duration, props_durationMs.
    intros [-> | (d & ms & ->)]; split; split; try done.
    - by intros (c & ? & _).
    - by intros (c & ? & _).
    - intros _. eexists. split; [reflexivity|]. by eexists.
    - intros _. eexists. split; [reflexivity|]. by eexists. }
  split; [apply props_errors|apply props_nativeStack].
Qed.

Lemma buildJsonRecord_keys_witness :
  exists record h' w' props,
    buildJsonRecord sampleEnv (sampleLogger "jsonl" "debug") traceHeap "info"
      (VString "request") [VRef 0; VRef 0]
      (Some (mkContext (Some "1s") (Some (NumInt 1000)))) initialWorld
    = (Returned (record, h'), w')
    /\ h' !! record = Some (OPlain props)
    /\ (exists a, getKey "args" props = Some (VRef a)
                  /\ h' !! a = Some (OArray [VRef 0; VRef 0]))
    /\ getKey "duration" props = Some (VString "1s")
    /\ getKey "durationMs" props = Some (VNumber (NumInt 1000)).
Proof.
  destruct (buildJsonRecord_keys sampleEnv (sampleLogger "jsonl" "debug") traceHeap
              "info" (VString "request") [VRef 0; VRef 0]
              (Some (mkContext (Some "1s") (Some (NumInt 1000)))) initialWorld)
    as (record & h' & w' & props & Hbuild & Hrecord & _ & _ & _ & _ & _ & Hargs
        & _ & _ & _ & Hboth & _ & _).
  exists record, h', w', props.
  split; [exact Hbuild|]. split; [exact Hrecord|].
  split; [apply Hargs; discriminate|].
  apply (Hboth "1s" (NumInt 1000)). reflexivity.
Defined.

(** At error and fatal level the nativeStack field of the record is the
    result of [captureNativeStack] on the error it creates during the
    call: the text of the [stack] of that error, split into lines,
    without the first one. *)
Lemma nativeStack_of_record env lg h level message args context w :
  isErrorLevel level = true ->
  exists record h' w' props,
    buildJsonRecord env lg h level message args context w
    = (Returned (record, h'), w')
    /\ h' !! record = Some (OPlain props)
    /\ getKey "nativeStack" props
       = Some (VString (Str.join Str.nl
                 (drop 1 (Str.split Str.newline
                            (default "" (errorStack env (stackCaptures w))))))).
Proof.
  intros Hlevel.
  destruct (buildJsonRecord_run env lg h level message args context w)
    as (argsRef & errorsRef & h' & record & Hbuild & -> & _ & _).
  eexists _, _, _, _. split; [exact Hbuild|].
  split; [apply lookup_snoc|].
  rewrite Hlevel.
  destruct (props_nativeStack lg h (toISOString env (clockReads w))
              (nativeStackAt env w) level message args context argsRef errorsRef)
    as [_ ->]; [|done].
  unfold nativeStackAt, captureNativeStack.
  destruct (errorStack env (stackCaptures w)) as [s|]; simpl; [|done].
  by rewrite orElse_empty.
Qed.

(** C4. At error and fatal level the nativeStack field of the record is
    taken from the stack of the error that [captureNativeStack] creates
    during the call, whatever the message and the arguments are (none of
    the logged errors is read).  When that stack is a header line followed
    by frame lines, the field is the frame lines, all of them: the header
    is what is removed, and the first frame, the one of
    [captureNativeStack] itself, is kept. *)
Theorem nativeStack_drops_header_line_only env lg h level message args context w
    header frames :
  isErrorLevel level = true ->
  oneLine header = true ->
  errorStack env (stackCaptures w) = Some (stackText header frames) ->
  exists record h' w' props,
    buildJsonRecord env lg h level message args context w
    = (Returned (record, h'), w')
    /\ h' !! record = Some (OPlain props)
    /\ getKey "nativeStack" props = Some (VString (Str.join Str.nl frames)).
Proof.
  intros Hlevel Hheader Hstack.
  destruct (nativeStack_of_record env lg h level message args context w Hlevel)
    as (record & h' & w' & props & Hbuild & Hrecord & Hkey).
  exists record, h', w', props. split; [exact Hbuild|]. split; [exact Hrecord|].
  rewrite Hkey, Hstack. do 2 f_equal.
  change (default "" (Some (stackText header frames))) with (stackText header frames).
  unfold stackText. destruct frames as [|frame frames].
  - change (Str.join Str.nl [header]) with header.
    by rewrite (split_one_line header Hheader).
  - rewrite (join_cons Str.nl header (frame :: frames)) by done.
    rewrite (split_first_line header _ Hheader).
    change (drop 1 (header :: ?l)) with l. apply split_join.
Qed.

Lemma nativeStack_drops_header_line_only_witness :
  exists record h' w' props,
    buildJsonRecord sampleEnv (sampleLogger "jsonl" "debug") cyclicCauseHeap "error"
      (VString "failed") [VRef 0] None initialWorld
    = (Returned (record, h'), w')
    /\ h' !! record = Some (OPlain props)
    /\ getKey "nativeStack" props
       = Some (VString (Str.join Str.nl ["    at captureNativeStack"; "    at main"])).
Proof.
  apply (nativeStack_drops_header_line_only sampleEnv (sampleLogger "jsonl" "debug")
           cyclicCauseHeap "error" (VString "failed") [VRef 0] None initialWorld
           "Error" ["    at captureNativeStack"; "    at main"]);
    reflexivity.
Defined.

(** C4, the claim as it is written.  On a stack of the engine's format
    (the header "Error", the frame of [captureNativeStack], the frame of
    the caller) the field still holds the frame of [captureNativeStack]:
    it is not the trace with its first frame removed. *)
Theorem nativeStack_first_frame_is_kept :
  errorStack sampleEnv (stackCaptures initialWorld)
  = Some (stackText "Error" ["    at captureNativeStack"; "    at main"])
  /\ exists record h' w' props,
       buildJsonRecord sampleEnv (sampleLogger "jsonl" "debug") [] "error"
         (VString "failed") [] None initialWorld
       = (Returned (record, h'), w')
       /\ h' !! record = Some (OPlain props)
       /\ getKey "nativeStack" props
          = Some (VString (Str.join Str.nl ["    at captureNativeStack"; "    at main"]))
       /\ getKey "nativeStack" props
          <> Some (VString (firstFrameRemoved ["    at captureNativeStack"; "    at main"])).
Proof.
  split; [reflexivity|].
  destruct (nativeStack_of_record sampleEnv (sampleLogger "jsonl" "debug") [] "error"
              (VString "failed") [] None initialWorld eq_refl)
    as (record & h' & w' & props & Hbuild & Hrecord & Hkey).
  exists record, h', w', props. split_and!; [done|done|exact Hkey|].
  rewrite Hkey. discriminate.
Qed.

(** ** The native stack of error and fatal calls *)

Lemma written_app (xs ys : list Event) : written (xs ++ ys) = written xs ++ written ys.
Proof. apply omap_app. Qed.

Lemma written_exitEvents level : written (exitEvents level) = [].
Proof. unfold exitEvents. by destruct (String.eqb level "fatal"). Qed.

Lemma written_stackSection env lg level w m :
  written (stackSection env lg level w m)
  = ((prefixAt lg (toISOString env (clockReads w)) level +:+ "  Stack trace:") +:+ Str.nl)
    :: map (fun line => prefixAt lg (toISOString env m) level +:+ "  " +:+ line +:+ Str.nl)
           (printedLines (nativeStackAt env w)).
Proof.
  unfold stackSection, written. simpl. f_equal.
  induction (printedLines (nativeStackAt env w)) as [|line lines IH]; [done|].
  simpl. by rewrite IH.
Qed.

(** Away from the cycles beside errors: an error or fatal call that
    passes the level filter handles the native stack of the call site
    whether or not the message or an argument is an error.  In text mode,
    when the captured native stack is not empty, what the call writes ends
    with the header line (the prefix, then "Stack trace:") followed by one
    prefixed line per line of the native stack that is not blank; nothing
    but the exit of a fatal call follows.  In JSON mode the record that is
    built has the nativeStack key, also when it has no errors key; whether
    the record is written is another matter. *)
Lemma native_stack_in_text_and_in_record env lg h level message args context w :
  isErrorLevel level = true ->
  (rank (logLevel lg) <= rank level)%Z ->
  (String.eqb (outputFormat lg) "jsonl" = false ->
   nativeStackAt env w <> "" ->
   exists before m n k,
     logInternal env lg h level message args context w
     = (expectedOutcome level,
        advance w (before ++ stackSection env lg level w m ++ exitEvents level) n k)
     /\ written (before ++ stackSection env lg level w m ++ exitEvents level)
        = written before
          ++ ((prefixAt lg (toISOString env (clockReads w)) level +:+ "  Stack trace:")
                +:+ Str.nl)
             :: map (fun line =>
                       prefixAt lg (toISOString env m) level +:+ "  " +:+ line +:+ Str.nl)
                    (printedLines (nativeStackAt env w)))
  /\
  (String.eqb (outputFormat lg) "jsonl" = true ->
   exists record h' w1 props,
     buildJsonRecord env lg h level message args context w
     = (Returned (record, h'), w1)
     /\ h' !! record = Some (OPlain props)
     /\ getKey "nativeStack" props = Some (VString (nativeStackAt env w))
     /\ (existsb (isError h) (message :: args) = false -> ~ hasKey "errors" props)).
Proof.
  intros Hlevel Hrank. split.
  - intros Hfmt Hns. apply truthy_true in Hns.
    destruct (logInternal_text env lg h level message args context w Hfmt Hrank)
      as (extra & n & k & Hrun & _ & _ & Hstack).
    destruct (Hstack Hlevel Hns) as (before & m & ->).
    exists (Write (streamFor lg level) (primaryLine env lg h level message args w)
            :: before), m, n, k.
    split.
    + rewrite Hrun. do 2 f_equal. simpl. by rewrite <- app_assoc.
    + by rewrite !written_app, written_exitEvents, app_nil_r, written_stackSection.
  - intros Hfmt.
    destruct (buildJsonRecord_run env lg h level message args context w)
      as (argsRef & errorsRef & h' & record & Hbuild & -> & _ & _).
    eexists _, _, _, _. split; [exact Hbuild|].
    split; [apply lookup_snoc|]. rewrite Hlevel. split.
    + by apply props_nativeStack.
    + intros Hnone Hkey. apply props_errors in Hkey as [_ Hsome].
      apply existsb_isError in Hsome. congruence.
Qed.

Lemma native_stack_in_text_and_in_record_example :
  (exists before m n k,
     logInternal sampleEnv (sampleLogger "text" "debug") [] "error"
       (VString "plain message") [] None initialWorld
     = (expectedOutcome "error",
        advance initialWorld
          (before ++ stackSection sampleEnv (sampleLogger "text" "debug") "error"
                       initialWorld m ++ exitEvents "error") n k))
  /\ (exists record h' w1 props,
        buildJsonRecord sampleEnv (sampleLogger "jsonl" "debug") [] "error"
          (VString "plain message") [] None initialWorld
        = (Returned (record, h'), w1)
        /\ h' !! record = Some (OPlain props)
        /\ ~ hasKey "errors" props
        /\ is_Some (getKey "nativeStack" props)).
Proof.
  split.
  - destruct (native_stack_in_text_and_in_record sampleEnv (sampleLogger "text" "debug") []
                "error" (VString "plain message") [] None initialWorld)
      as [Htext _]; [reflexivity | by vm_compute |].
    destruct Htext as (before & m & n & k & Hrun & _); [reflexivity | by vm_compute |].
    by exists before, m, n, k.
  - destruct (native_stack_in_text_and_in_record sampleEnv (sampleLogger "jsonl" "debug") []
                "error" (VString "plain message") [] None initialWorld)
      as [_ Hjson]; [reflexivity | by vm_compute |].
    destruct Hjson as (record & h' & w1 & props & Hbuild & Hrecord & Hstack & Herrors);
      [reflexivity|].
    exists record, h', w1, props. split_and!; [done|done|by apply Herrors|].
    rewrite Hstack. by eexists.
Defined.

(** ** Cycles in JSON mode *)

(** The logger of the examples is the one the constructor builds. *)
Lemma jsonLogger_constructed :
  newLogger sampleEnv (mkOptions (Some "debug") None (Some "jsonl") None)
  = Normal jsonLogger.
Proof. reflexivity. Qed.

(** The loop of lines 247-253 keeps the ancestors up to the holder ... *)
Lemma popAncestors_known_holder (ancestors : list loc) (holder : loc) :
  holder ∈ ancestors ->
  exists above below,
    ancestors = above ++ holder :: below
    /\ (holder ∉ above)
    /\ popAncestors ancestors (Some holder) = holder :: below.
Proof.
  induction ancestors as [|top rest IH]; intros Hin; [by inversion Hin|].
  simpl. destruct (Nat.eqb_spec top holder) as [->|Hne]; simpl.
  - exists [], rest. split_and!; [done|apply not_elem_of_nil|done].
  - apply elem_of_cons in Hin as [->|Hin]; [done|].
    destruct (IH Hin) as (above & below & -> & Hnot & ->).
    exists (top :: above), below. split_and!; [done| |done].
    apply not_elem_of_cons. split; [congruence|done].
Qed.

(** ... and drops them all when the holder is not among them, as for the
    children of the object that the replacer returns for an error. *)
Lemma popAncestors_unknown_holder (ancestors : list loc) (holder : loc) :
  holder ∉ ancestors -> popAncestors ancestors (Some holder) = [].
Proof.
  induction ancestors as [|top rest IH]; intros Hnot; [done|].
  apply not_elem_of_cons in Hnot as [Hne Hnot]. simpl.
  destruct (Nat.eqb_spec top holder) as [->|_]; [done|]. simpl. by apply IH.
Qed.

(** So the replacer, called on a container whose holder is not among the
    ancestors, forgets them all: afterwards [ancestors] holds that
    container only. *)
Lemma replacer_forgets_ancestors env h (ancestors : list loc) (holder l : loc) key :
  holder ∉ ancestors -> asError h (VRef l) = None ->
  replacer env (Some holder) key (VRef l) (h, ancestors)
  = Some (VRef l, (h, [l])).
Proof.
  intros Hnot Herr. unfold replacer. rewrite Herr.
  by rewrite popAncestors_unknown_holder.
Qed.

(** The same object passed twice as arguments is serialized twice in
    full. *)
Lemma repeated_reference_serialized_in_full :
  logInternal sampleEnv jsonLogger traceHeap "info" (VString "request")
    [VRef 0; VRef 0] None initialWorld
  = (Returned tt,
     mkWorld [Write Stdout (repeatedContextLine +:+ Str.nl)] 1 0).
Proof. vm_compute. reflexivity. Qed.

(** A reference of an object to itself becomes the circular marker. *)
Lemma self_reference_becomes_marker :
  logInternal sampleEnv jsonLogger plainCycleHeap "info" (VString "request")
    [VRef 0] None initialWorld
  = (Returned tt, mkWorld [Write Stdout (plainCycleLine +:+ Str.nl)] 1 0).
Proof. vm_compute. reflexivity. Qed.

(** C3. Evaluation at the failing input.  [ctx = { err: outer, self: ctx }]
    where [outer.cause = inner]: while the serialized [outer] is written,
    its [causes] array is visited with a holder that is not an ancestor, so
    the loop of lines 247-253 empties [ancestors]; at [ctx.self] the
    replacer no longer knows [ctx] as an open ancestor, returns it, and
    [JSON.stringify] throws its TypeError for a cyclic structure. *)
Theorem circular_guard_lost_beside_error :
  exists record h w,
    buildJsonRecord sampleEnv jsonLogger failedRequestHeap "info"
      (VString "request failed") [VRef 2] None initialWorld
    = (Returned (record, h), w)
    /\ stringifyJsonRecord sampleEnv h record = Threw JSON.cyclic.
Proof. eexists _, _, _. split; vm_compute; reflexivity. Qed.

(** C1. Evaluation at the failing input.  The call is at level info with
    minimum level debug, so it passes the filter; the stringification of
    its record throws on the cycle beside the error, and no line is
    written on either stream. *)
Theorem passing_call_with_cyclic_context_writes_nothing :
  (rank (logLevel jsonLogger) <= rank "info")%Z
  /\ exists w,
       logInternal sampleEnv jsonLogger failedRequestHeap "info"
         (VString "request failed") [VRef 2] None initialWorld
       = (Threw JSON.cyclic, w)
       /\ writtenTo Stdout (trace w) = [] /\ writtenTo Stderr (trace w) = [].
Proof. split; [by vm_compute|]. eexists. split_and!; vm_compute; reflexivity. Qed.

(** C9. Evaluation at the failing input.  The fatal call passes the filter;
    the stringification of its record throws, so the call ends by an
    exception, having written nothing and without [process.exit]. *)
Theorem fatal_call_with_cyclic_context_neither_writes_nor_exits :
  (rank (logLevel jsonLogger) <= rank "fatal")%Z
  /\ logInternal sampleEnv jsonLogger failedRequestHeap "fatal"
       (VString "request failed") [VRef 2] None initialWorld
     = (Threw JSON.cyclic, mkWorld [] 1 1).
Proof. split; [by vm_compute|]. vm_compute. reflexivity. Qed.

(** C10. Evaluation at the failing input.  The error call passes the
    filter, neither its message nor its argument is an error, and the
    native stack of the call is not empty; the record is built with its
    nativeStack key, but its stringification throws, so the call ends by
    an exception and the native stack is never written. *)
Theorem error_call_with_cyclic_context_emits_no_native_stack :
  (rank (logLevel jsonLogger) <= rank "error")%Z
  /\ existsb (isError failedRequestHeap) [VString "request failed"; VRef 2] = false
  /\ nativeStackAt sampleEnv initialWorld <> ""
  /\ (exists record h w props,
        buildJsonRecord sampleEnv jsonLogger failedRequestHeap "error"
          (VString "request failed") [VRef 2] None initialWorld
        = (Returned (record, h), w)
        /\ h !! record = Some (OPlain props)
        /\ getKey "nativeStack" props
           = Some (VString (nativeStackAt sampleEnv initialWorld)))
  /\ exists w,
       logInternal sampleEnv jsonLogger failedRequestHeap "error"
         (VString "request failed") [VRef 2] None initialWorld
       = (Threw JSON.cyclic, w)
       /\ written (trace w) = [].
Proof.
  split_and!; [by vm_compute|reflexivity|discriminate| |].
  - eexists _, _, _, _. split_and!; vm_compute; reflexivity.
  - eexists. split; vm_compute; reflexivity.
Qed.

(** ** The guard on heaps without errors

    When no error object is involved the replacer never returns a fresh
    object, [ancestors] mirrors the [[Stack]] at every call, every
    reference to an open ancestor is replaced by the marker, and
    [JSON.stringify] neither throws nor exceeds the depth bound. *)

Lemma serializeProperty_unfold {St} (replacer : JSON.Replacer St)
    fuel stack holder key value st :
  JSON.serializeProperty replacer (S fuel) stack holder key value st
  = match replacer (Some holder) key value st with
    | None => OutOfFuel
    | Some (value, st) =>
        match value with
        | VNull => Returned (Some "null", st)
        | VBool true => Returned (Some "true", st)
        | VBool false => Returned (Some "false", st)
        | VString s => Returned (Some (JSON.quote s), st)
        | VNumber n => Returned (Some (JSON.numberToJSON n), st)
        | VBigInt _ =>
            Threw (TypeErrorExc "Do not know how to serialize a BigInt")
        | VUndefined | VSymbol _ | VFunction _ => Returned (None, st)
        | VRef l =>
            if existsb (Nat.eqb l) stack then Threw JSON.cyclic
            else
              match fst st !! l with
              | Some (OArray items) =>
                  match JSON.serializeElements
                          (JSON.serializeProperty replacer fuel (stack ++ [l]) l)
                          0 items [] st with
                  | Returned (partial, st) => Returned (Some (JSON.array partial), st)
                  | Threw exc => Threw exc
                  | Exited => Exited
                  | OutOfFuel => OutOfFuel
                  end
              | Some (OPlain props) =>
                  match JSON.serializeMembers
                          (JSON.serializeProperty replacer fuel (stack ++ [l]) l)
                          props [] st with
                  | Returned (partial, st) => Returned (Some (JSON.object partial), st)
                  | Threw exc => Threw exc
                  | Exited => Exited
                  | OutOfFuel => OutOfFuel
                  end
              | Some (OError _) | None => Returned (Some "{}", st)
              end
        end
    end.
Proof. reflexivity. Qed.


Lemma popAncestors_junk (holder : loc) (rest junk : list loc) :
  holder ∉ junk ->
  popAncestors (junk ++ holder :: rest) (Some holder) = holder :: rest.
Proof.
  induction junk as [|top junk IH]; intros Hnot; simpl.
  - by rewrite Nat.eqb_refl.
  - apply not_elem_of_cons in Hnot as [Hne Hnot].
    destruct (Nat.eqb_spec top holder) as [->|_]; [done|]. simpl. by apply IH.
Qed.

(** After the loop of lines 247-253, [ancestors] is the stack. *)
Lemma popAncestors_mirrors stack holder ancestors :
  mirrors stack ancestors -> holds stack holder ancestors ->
  popAncestors ancestors (Some holder) = reverse stack.
Proof.
  intros (junk & -> & Hjunk) Hholds.
  destruct stack as [|x stack _] using rev_ind.
  - simpl in *. rewrite app_nil_r in *. by apply popAncestors_unknown_holder.
  - unfold holds in Hholds.
    assert (last (stack ++ [x]) = Some holder) as Hlast by (by destruct stack).
    rewrite last_snoc in Hlast. injection Hlast as ->.
    rewrite reverse_snoc. apply popAncestors_junk.
    intros Hin. apply (Hjunk _ Hin). apply elem_of_app. right. by left.
Qed.



Lemma noErrors_asError h v : noErrors h -> asError h v = None.
Proof.
  intros Hno. unfold asError. destruct v as [| | | | | | | |l]; try done.
  destruct (h !! l) as [[e| |]|] eqn:E; try done.
  eapply Forall_lookup_1 in Hno; [|exact E]. by destruct (Hno e).
Qed.

Lemma existsb_eqb_elem (l : loc) (ls : list loc) :
  existsb (Nat.eqb l) ls = true <-> l ∈ ls.
Proof.
  rewrite existsb_exists. split.
  - intros (x & Hin & ->%Nat.eqb_eq). by apply list_elem_of_In.
  - intros Hin. exists l. split; [by apply list_elem_of_In|apply Nat.eqb_refl].
Qed.

Section Guard.

Variable env : Env.
Variable h : Heap.
Hypothesis Hno : noErrors h.

Local Abbreviation childReturns := (childReturnsOn h).



Lemma replacer_noErrors holder key value anc :
  replacer env (Some holder) key value (h, anc)
  = Some match value with
         | VBigInt z => (VString (pretty z), (h, anc))
         | VFunction _ | VSymbol _ => (VString (inspect env h value 1 false), (h, anc))
         | VUndefined => (VNull, (h, anc))
         | VRef l =>
             if existsb (Nat.eqb l) (popAncestors anc (Some holder))
             then (VString "[Circular]", (h, popAncestors anc (Some holder)))
             else (value, (h, l :: popAncestors anc (Some holder)))
         | _ => (value, (h, anc))
         end.
Proof.
  unfold replacer. rewrite (noErrors_asError h value Hno).
  destruct value as [| | | | | | | |l]; try reflexivity.
  by destruct (existsb (Nat.eqb l) (popAncestors anc (Some holder))).
Qed.


End Guard.



(** ** The filter and the exit, away from the cycles beside errors *)



(** ** The depth bound

    With errors the replacer adds objects to the heap while the record is
    written.  The objects on the [[Stack]] are distinct objects of the heap
    at the start, followed by at most the three levels of one serialized
    error, so the fuel of [JSON.depthBound] is never used up. *)











Section Adequacy.
Variable env : Env.

Local Abbreviation serialize := (JSON.serializeProperty (replacer env)).












End Adequacy.



(** * Further properties of the code *)

(** ** The first line of the native stack *)

(** X2.  [captureNativeStack] removes exactly the first line of the stack
    of the fresh error: what follows the first line feed is returned as it
    is, and a stack of one line, an empty stack or no stack at all give the
    empty string. *)
Theorem captureNativeStack_drops_first_line :
  (forall first rest,
     oneLine first = true ->
     captureNativeStack (Some (first +:+ Str.nl +:+ rest)) = rest)
  /\ (forall s, oneLine s = true -> captureNativeStack (Some s) = "")
  /\ captureNativeStack None = "".
Proof.
  split_and!.
  - intros first rest Hone. unfold captureNativeStack.
    rewrite orElse_empty, split_first_line by done. simpl.
    apply split_join.
  - intros s Hone. unfold captureNativeStack.
    by rewrite orElse_empty, split_one_line.
  - done.
Qed.

Lemma captureNativeStack_drops_first_line_witness :
  captureNativeStack (Some ("Error" +:+ Str.nl +:+ "    at f" +:+ Str.nl +:+ "    at g"))
  = "    at f" +:+ Str.nl +:+ "    at g"
  /\ captureNativeStack (Some "Error: no frames") = "".
Proof.
  destruct captureNativeStack_drops_first_line as (Hfirst & Hone & _).
  split.
  - apply (Hfirst "Error"). reflexivity.
  - apply Hone. reflexivity.
Defined.

(** ** The cause chain *)

Lemma stoppedAt_cons (from : Value) (c : loc * ErrorObj) (rest : list (loc * ErrorObj)) :
  stoppedAt from (c :: rest) = stoppedAt (cause c.2) rest.
Proof.
  unfold stoppedAt. destruct rest as [|c' rest]; [done|].
  rewrite last_cons_cons, last_cons. by destruct (last rest).
Qed.

(** The loop appends to [causes] a chain that follows the [cause] links
    from [current], and stops at a value that is not an error or at an
    error it has met. *)
Lemma causesLoop_linked (h : Heap) :
  forall fuel seen causes current cs,
    causesLoop fuel h seen causes current = Some cs ->
    exists ext,
      cs = causes ++ ext
      /\ linked h current ext
      /\ (asError h (stoppedAt current ext) = None
          \/ exists l e, asError h (stoppedAt current ext) = Some (l, e)
                         /\ (l ∈ seen \/ l ∈ ext.*1)).
Proof.
  induction fuel as [|fuel IH]; intros seen causes current cs Hrun; [done|].
  rewrite causesLoop_unfold in Hrun.
  destruct (asError h current) as [[l e]|] eqn:Hcur.
  - destruct (bool_decide (l ∈ seen)) eqn:Hseen.
    + apply bool_decide_eq_true in Hseen. injection Hrun as <-.
      exists []. rewrite app_nil_r. split_and!; [done|done|].
      right. exists l, e. by split; [|left].
    + apply IH in Hrun as (ext & -> & Hlinked & Hstop).
      exists ((l, e) :: ext). rewrite <- app_assoc. split_and!; [done| |].
      * apply asError_Some in Hcur as [-> Hl]. by simpl.
      * rewrite stoppedAt_cons. simpl.
        destruct Hstop as [Hnone|(l' & e' & Hsome & Hin)]; [by left|].
        right. exists l', e'. split; [done|].
        destruct Hin as [Hin|Hin].
        -- apply elem_of_union in Hin as [Hin|Hin]; [|by left].
           apply elem_of_singleton in Hin as ->. right. simpl. by left.
        -- right. simpl. by right.
  - injection Hrun as <-. exists []. rewrite app_nil_r. split_and!; [done|done|].
    by left.
Qed.

(** X1.  The chain of [getErrorCauses] follows the [cause] links one by
    one, starting at the cause of the error, and it is as long as it can
    be: it stops only where the next cause is not an error, or is the
    error itself or an error already in the chain. *)
Theorem getErrorCauses_follows_cause_links (h : Heap) (a : loc) :
  exists chain,
    getErrorCauses h a = Some chain
    /\ linked h (causeOf h a) chain
    /\ (asError h (stoppedAt (causeOf h a) chain) = None
        \/ exists l e, asError h (stoppedAt (causeOf h a) chain) = Some (l, e)
                       /\ l ∈ a :: chain.*1).
Proof.
  destruct (getErrorCauses_total h a) as (chain & Hrun & _).
  exists chain. split; [done|].
  unfold getErrorCauses in Hrun.
  apply causesLoop_linked in Hrun as (ext & Hcs & Hlinked & Hstop).
  simpl in Hcs. subst ext. split; [done|].
  destruct Hstop as [Hnone|(l & e & Hsome & Hin)]; [by left|].
  right. exists l, e. split; [done|].
  destruct Hin as [Hin|Hin].
  - apply elem_of_singleton in Hin as ->. by left.
  - by right.
Qed.

(** ** The instance *)

Lemma indexOfFrom_absent (xs : list string) (x : string) : forall i,
  x ∉ xs -> indexOfFrom i xs x = (-1)%Z.
Proof.
  induction xs as [|y xs IH]; intros i Hnot; simpl; [done|].
  destruct (String.eqb y x) eqn:Hy.
  - apply String.eqb_eq in Hy as ->. exfalso. apply Hnot. by left.
  - apply IH. intros Hin. apply Hnot. by right.
Qed.

Lemma indexOfFrom_present (xs : list string) (x : string) : forall i,
  x ∈ xs -> (i <= indexOfFrom i xs x)%Z.
Proof.
  induction xs as [|y xs IH]; intros i Hin; simpl.
  - by apply elem_of_nil in Hin.
  - destruct (String.eqb y x) eqn:Hy; [lia|].
    apply elem_of_cons in Hin as [->|Hin].
    + by rewrite String.eqb_refl in Hy.
    + specialize (IH (i + 1)%Z Hin). lia.
Qed.

Lemma rank_unknown (level : string) : level ∉ LOG_LEVELS -> rank level = (-1)%Z.
Proof. apply indexOfFrom_absent. Qed.

Lemma rank_known (level : string) : level ∈ LOG_LEVELS -> (0 <= rank level <= 4)%Z.
Proof.
  intros Hin. unfold LOG_LEVELS in Hin.
  repeat (apply elem_of_cons in Hin as [->|Hin]; [by vm_compute|]).
  by apply elem_of_nil in Hin.
Qed.

(** X3.  Every logger the constructor returns has a valid minimum level
    and a valid output format, uses truecolor only when it uses colour,
    and holds the colour computed from its module label; [setLogLevel]
    (whether it throws or not) and [setModule] keep all four. *)
Theorem logger_invariant (env : Env) :
  (forall options lg, newLogger env options = Normal lg -> wellFormed env lg)
  /\ (forall lg level, wellFormed env lg -> wellFormed env (setLogLevel lg level).2)
  /\ (forall lg label, wellFormed env lg -> wellFormed env (setModule env lg label)).
Proof.
  split_and!.
  - intros options lg. unfold newLogger.
    destruct (includes LOG_LEVELS _) eqn:Hlevel; [|done].
    destruct (includes OUTPUT_FORMATS _) eqn:Hformat; [|done].
    simpl. intros [= <-]. unfold wellFormed; simpl.
    apply includes_spec in Hlevel, Hformat. split_and!; [done|done| |done].
    unfold detectTruecolorSupport. by destruct (detectColorSupport env).
  - intros lg level (Hlevel & Hformat & Hcolor & Hmodule). unfold setLogLevel.
    destruct (includes LOG_LEVELS level) eqn:Hnew; simpl.
    + apply includes_spec in Hnew. by split_and!.
    + by split_and!.
  - intros lg label (Hlevel & Hformat & Hcolor & Hmodule).
    by split_and!.
Qed.

Lemma logger_invariant_witness :
  wellFormed sampleEnv jsonLogger
  /\ wellFormed sampleEnv (setLogLevel jsonLogger "warn").2
  /\ wellFormed sampleEnv (setModule sampleEnv jsonLogger "db").
Proof.
  destruct (logger_invariant sampleEnv) as (Hnew & Hlevel & Hmodule).
  assert (wellFormed sampleEnv jsonLogger) as Hwf.
  { apply (Hnew (mkOptions (Some "debug") None (Some "jsonl") None)). reflexivity. }
  split_and!; [done|by apply Hlevel|by apply Hmodule].
Defined.

(** X5.  A call at a level that is not one of the five is dropped without
    a trace by every logger with a valid minimum level: the unknown level
    has rank -1. *)
Theorem unknown_level_is_dropped env lg h level message args context w :
  logLevel lg ∈ LOG_LEVELS -> level ∉ LOG_LEVELS ->
  logInternal env lg h level message args context w = (Returned tt, w).
Proof.
  intros Hmin Hlevel. apply logInternal_filtered.
  rewrite (rank_unknown _ Hlevel). pose proof (rank_known _ Hmin). lia.
Qed.

Lemma unknown_level_is_dropped_witness :
  logInternal sampleEnv (sampleLogger "text" "debug") [] "trace"
    (VString "ignored") [] None initialWorld
  = (Returned tt, initialWorld).
Proof.
  apply unknown_level_is_dropped.
  - unfold sampleLogger, LOG_LEVELS; simpl. by left.
  - unfold LOG_LEVELS. intros Hin.
    repeat (apply elem_of_cons in Hin as [Hin|Hin]; [discriminate|]).
    by apply elem_of_nil in Hin.
Defined.

(** X4.  [setLogLevel] with one of the five levels returns normally and
    changes the filter and nothing else: calls below the new level are
    dropped, the calls at or above it are written (in text mode, with the
    very line the logger would have written before), and the routing and
    the prefix are as they were. *)
Theorem setLogLevel_changes_the_filter env lg level :
  level ∈ LOG_LEVELS ->
  exists lg',
    setLogLevel lg level = (Normal tt, lg')
    /\ logLevel lg' = level
    /\ (forall l, streamFor lg' l = streamFor lg l)
    /\ (forall iso l, prefixAt lg' iso l = prefixAt lg iso l)
    /\ (forall h l message args context w,
          (rank l < rank level)%Z ->
          logInternal env lg' h l message args context w = (Returned tt, w))
    /\ (forall h l message args context w,
          (rank level <= rank l)%Z ->
          String.eqb (outputFormat lg) "jsonl" = false ->
          exists extra n k,
            logInternal env lg' h l message args context w
            = (expectedOutcome l,
               advance w (Write (streamFor lg l) (primaryLine env lg h l message args w)
                          :: extra ++ exitEvents l) n k))
    /\ (forall h l message args context w,
          (rank level <= rank l)%Z -> (rank (logLevel lg) <= rank l)%Z ->
          logInternal env lg' h l message args context w
          = logInternal env lg h l message args context w).
Proof.
  intros Hlevel. apply includes_spec in Hlevel.
  eexists. unfold setLogLevel. rewrite Hlevel. simpl.
  split_and!; try done.
  - intros h l message args context w Hlt.
    by apply logInternal_filtered.
  - intros h l message args context w Hle Hfmt.
    match goal with
    | |- context [logInternal env ?lg' _ _ _ _ _ _] =>
        destruct (logInternal_text env lg' h l message args context w Hfmt Hle)
          as (extra & n & k & Hrun & _)
    end.
    by exists extra, n, k.
  - intros h l message args context w Hnew Hold.
    unfold logInternal; simpl.
    fold (rank l). fold (rank level). fold (rank (logLevel lg)).
    apply Z.ltb_ge in Hnew, Hold. by rewrite Hnew, Hold.
Qed.

Lemma setLogLevel_changes_the_filter_witness :
  exists lg',
    setLogLevel (sampleLogger "text" "info") "error" = (Normal tt, lg')
    /\ logInternal sampleEnv lg' [] "warn" (VString "dropped") [] None initialWorld
       = (Returned tt, initialWorld).
Proof.
  destruct (setLogLevel_changes_the_filter sampleEnv (sampleLogger "text" "info") "error")
    as (lg' & Hset & _ & _ & _ & Hdrop & _).
  - unfold LOG_LEVELS. do 3 right. by left.
  - exists lg'. split; [done|]. apply Hdrop. by vm_compute.
Defined.

Lemma not_in_map_write {A} (s : Stream) (f : A -> string) (xs : list A) code :
  ProcessExit code ∉ map (fun x => Write s (f x)) xs.
Proof. induction xs; simpl; [apply not_elem_of_nil|]. by apply not_elem_of_cons. Qed.




(** ** The text line *)

Lemma length_append (s1 s2 : string) :
  String.length (s1 +:+ s2) = String.length s1 + String.length s2.
Proof.
  induction s1 as [|c s1 IH]; [done|].
  change (String c s1 +:+ s2) with (String c (s1 +:+ s2)). simpl. by rewrite IH.
Qed.

Lemma concat_replicate_length (n : nat) :
  String.length (String.concat "" (replicate n " ")) = n.
Proof.
  induction n as [|n IH]; [done|].
  destruct n as [|n]; [done|].
  change (String.length (" " +:+ "" +:+ String.concat "" (replicate (S n) " ")) = S (S n)).
  rewrite !length_append, IH. done.
Qed.

(** [padEnd] pads up to the width and never cuts. *)
Lemma padEnd_length (n : nat) (s : string) :
  String.length (Str.padEnd n s) = Nat.max n (String.length s).
Proof. unfold Str.padEnd. rewrite length_append, concat_replicate_length. lia. Qed.

(** The prefix of a logger that uses no colour. *)
Lemma prefixAt_plain (lg : Logger) (iso level : string) :
  useColor lg = false ->
  prefixAt lg iso level
  = iso +:+ "  " +:+ Str.padEnd 7 ("[" +:+ Str.toUpperCase level +:+ "]") +:+ "  "
      +:+ (if Str.truthy (module lg) then "[" +:+ module lg +:+ "] " else "").
Proof.
  intros Hcolor. unfold prefixAt, colorize. rewrite Hcolor. simpl.
  destruct (Str.truthy (module lg)); [|done].
  do 4 f_equal. change ("[" +:+ module lg +:+ "]") with (String "[" (module lg +:+ "]")).
  change ("[" +:+ module lg +:+ "] ") with (String "[" (module lg +:+ "] ")).
  change (String "[" (module lg +:+ "]") +:+ " ")
    with (String "[" ((module lg +:+ "]") +:+ " ")).
  by rewrite append_assoc.
Qed.

(** X7.  Without colour the prefix has the same width at the five levels:
    the timestamp, two spaces, the level tag padded to seven characters,
    two spaces, then the module tag and one space when a module is set.
    The message starts at the same column whatever the level. *)
Theorem prefix_width (lg : Logger) (iso level : string) :
  useColor lg = false -> level ∈ LOG_LEVELS ->
  String.length (prefixAt lg iso level)
  = String.length iso + 11
    + (if Str.truthy (module lg) then String.length (module lg) + 3 else 0).
Proof.
  intros Hcolor Hlevel. rewrite prefixAt_plain by done.
  assert (String.length (Str.padEnd 7 ("[" +:+ Str.toUpperCase level +:+ "]")) = 7)
    as Htag.
  { unfold LOG_LEVELS in Hlevel.
    repeat (apply elem_of_cons in Hlevel as [->|Hlevel]; [by vm_compute|]).
    by apply elem_of_nil in Hlevel. }
  rewrite !length_append, Htag.
  destruct (Str.truthy (module lg)); rewrite ?length_append; simpl; lia.
Qed.

Lemma prefix_width_witness :
  String.length (prefixAt (sampleLogger "text" "debug") "2024-01-01T00:00:00.000Z" "warn")
  = String.length (prefixAt (sampleLogger "text" "debug") "2024-01-01T00:00:00.000Z" "fatal").
Proof.
  rewrite !prefix_width; [reflexivity|reflexivity| |reflexivity|].
  - unfold LOG_LEVELS. do 4 right. by left.
  - unfold LOG_LEVELS. do 2 right. by left.
Defined.

Lemma join_app (sep : string) (xs ys : list string) :
  xs <> [] -> ys <> [] ->
  Str.join sep (xs ++ ys) = Str.join sep xs +:+ sep +:+ Str.join sep ys.
Proof.
  intros Hxs Hys. induction xs as [|x xs IH]; [done|].
  destruct xs as [|x' xs].
  - change ([x] ++ ys) with (x :: ys). by rewrite join_cons.
  - change ((x :: x' :: xs) ++ ys) with (x :: (x' :: xs) ++ ys).
    rewrite (join_cons sep x ((x' :: xs) ++ ys)) by (simpl; done).
    assert (x' :: xs <> []) as Hne by discriminate.
    rewrite (IH Hne), (join_cons sep x (x' :: xs) Hne). by rewrite !append_assoc.
Qed.

Section Format.

Variable env : Env.
Variable lg : Logger.
Variable h : Heap.

Lemma formatArgs_cons (v : Value) (args : list Value) :
  formatArgs env lg h (v :: args)
  = (" " +:+ formatValue env lg h v) +:+ formatArgs env lg h args.
Proof.
  unfold formatArgs. destruct args as [|v' args].
  - simpl. by rewrite append_empty_r.
  - change (Nat.eqb (List.length (v :: v' :: args)) 0) with false.
    change (Nat.eqb (List.length (v' :: args)) 0) with false. cbv iota.
    change (map (formatValue env lg h) (v :: v' :: args))
      with (formatValue env lg h v :: map (formatValue env lg h) (v' :: args)).
    rewrite join_cons by (simpl; done). by rewrite !append_assoc.
Qed.

(** X8.  [formatArgs] puts exactly one space before every argument and
    nothing after the last: no argument gives the empty string, a string
    argument is copied as it is, and the text of two lists of arguments
    put together is the two texts put together. *)
Theorem formatArgs_one_space_each (args more : list Value) :
  formatArgs env lg h args
  = String.concat "" (map (fun v => " " +:+ formatValue env lg h v) args)
  /\ formatArgs env lg h (args ++ more)
     = formatArgs env lg h args +:+ formatArgs env lg h more
  /\ (forall s, formatArgs env lg h [VString s] = " " +:+ s).
Proof.
  split_and!.
  - induction args as [|v args IH]; [done|].
    rewrite formatArgs_cons, IH. destruct args as [|v' args]; [|done].
    simpl. by rewrite append_empty_r.
  - induction args as [|v args IH]; [done|].
    change ((v :: args) ++ more) with (v :: (args ++ more)).
    by rewrite !formatArgs_cons, IH, !append_assoc.
  - intros s. by rewrite formatArgs_cons, append_empty_r.
Qed.

End Format.

(** X9.  A logger constructed while [NO_COLOR] is set (to anything, the
    empty string included, and whatever [FORCE_COLOR] and [COLORTERM] say)
    writes plain text: a call below [error] that passes the filter reads
    the clock once and writes one chunk, made of the timestamp, two spaces,
    the padded level tag, two spaces, the module tag, the message and the
    arguments, and a line feed; values that are neither strings nor errors
    are inspected with colours off. *)
Theorem no_color_line env options lg h level message args context w :
  newLogger env options = Normal lg ->
  NO_COLOR env <> None ->
  outputFormat lg = "text" ->
  (rank (logLevel lg) <= rank level)%Z ->
  isErrorLevel level = false ->
  useColor lg = false
  /\ useTruecolor lg = false
  /\ logInternal env lg h level message args context w
     = (Returned tt,
        advance w
          [Write (streamFor lg level)
             ((toISOString env (clockReads w) +:+ "  "
                 +:+ Str.padEnd 7 ("[" +:+ Str.toUpperCase level +:+ "]") +:+ "  "
                 +:+ (if Str.truthy (module lg) then "[" +:+ module lg +:+ "] " else "")
                 +:+ formatValue env lg h message +:+ formatArgs env lg h args)
              +:+ Str.nl)] 1 0)
  /\ (forall v, formatValue env lg h v
                = match v with
                  | VString s => s
                  | _ => match asError h v with
                         | Some (_, e) => formatErrorMessage e
                         | None => inspect env h v 10 false
                         end
                  end).
Proof.
  intros Hnew Hno Hfmt Hrank Herr.
  assert (useColor lg = false /\ useTruecolor lg = false) as [Hcolor Htrue].
  { unfold newLogger in Hnew.
    destruct (includes LOG_LEVELS _); [|done].
    destruct (includes OUTPUT_FORMATS _); [|done].
    simpl in Hnew. injection Hnew as <-. simpl.
    unfold detectColorSupport. by rewrite bool_decide_eq_true_2. }
  split_and!; [done|done| |].
  - unfold logInternal. fold (rank level). fold (rank (logLevel lg)).
    apply Z.ltb_ge in Hrank. rewrite Hrank, Hfmt. simpl.
    unfold bind at 1. rewrite buildPrefix_run.
    unfold bind at 1. rewrite writeLine_run, advance_advance.
    fold (isErrorLevel level). rewrite Herr. simpl.
    unfold bind at 1. rewrite ret_run.
    assert (String.eqb level "fatal" = false) as ->.
    { unfold isErrorLevel in Herr. by apply orb_false_iff in Herr as [_ ?]. }
    rewrite ret_run. rewrite prefixAt_plain by done.
    by rewrite !append_assoc.
  - intros v. unfold formatValue. by rewrite Hcolor.
Qed.

Lemma no_color_line_witness :
  logInternal (mkEnv (Some "") (Some "1") (Some "truecolor") None true
                 (moduleToTruecolor sampleEnv) (inspect sampleEnv)
                 (toISOString sampleEnv) (errorStack sampleEnv))
    (mkLogger "info" "db" false false COLORS.magenta "text" false)
    [] "warn" (VString "slow query") [VString "users"] None initialWorld
  = (Returned tt,
     mkWorld [Write Stderr ("2024-01-01T00:00:00.000Z  [WARN]   [db] slow query users"
                              +:+ Str.nl)] 1 0).
Proof.
  pose proof (no_color_line
    (mkEnv (Some "") (Some "1") (Some "truecolor") None true
       (moduleToTruecolor sampleEnv) (inspect sampleEnv)
       (toISOString sampleEnv) (errorStack sampleEnv))
    (mkOptions None (Some "db") None None)
    (mkLogger "info" "db" false false COLORS.magenta "text" false)
    [] "warn" (VString "slow query") [VString "users"] None initialWorld) as Hline.
  destruct Hline as (_ & _ & Hrun & _).
  - reflexivity.
  - discriminate.
  - reflexivity.
  - by vm_compute.
  - reflexivity.
  - rewrite Hrun. reflexivity.
Defined.

(** ** The hash of a module name *)

Lemma toInt32_range (z : Z) : (- 2 ^ 31 <= Color.toInt32 z < 2 ^ 31)%Z.
Proof.
  unfold Color.toInt32.
  pose proof (Z.mod_pos_bound (z + 2 ^ 31) (2 ^ 32) eq_refl). lia.
Qed.

Lemma toInt32_wraps (z : Z) : exists k, Color.toInt32 z = (z + 2 ^ 32 * k)%Z.
Proof.
  unfold Color.toInt32. exists (- ((z + 2 ^ 31) / 2 ^ 32))%Z.
  rewrite Z.mod_eq by done. lia.
Qed.

Lemma toInt32_shift (z k : Z) : Color.toInt32 (z + 2 ^ 32 * k) = Color.toInt32 z.
Proof.
  unfold Color.toInt32. f_equal.
  replace (z + 2 ^ 32 * k + 2 ^ 31)%Z with (z + 2 ^ 31 + k * 2 ^ 32)%Z by lia.
  apply Z_mod_plus_full.
Qed.

Lemma toInt32_small (z : Z) : (- 2 ^ 31 <= z < 2 ^ 31)%Z -> Color.toInt32 z = z.
Proof.
  intros Hz. unfold Color.toInt32. rewrite Z.mod_small; lia.
Qed.

(** One turn of the loop is [31 * hash + c], up to a multiple of 2^32. *)
Lemma hashStep_wraps (hash c : Z) :
  exists k,
    Color.toInt32 (Color.toInt32 (Z.shiftl (Color.toInt32 hash) 5) - hash + c)
    = (31 * hash + c + 2 ^ 32 * k)%Z.
Proof.
  destruct (toInt32_wraps hash) as [k1 ->].
  rewrite Z.shiftl_mul_pow2 by done.
  destruct (toInt32_wraps ((hash + 2 ^ 32 * k1) * 2 ^ 5)) as [k2 ->].
  destruct (toInt32_wraps ((hash + 2 ^ 32 * k1) * 2 ^ 5 + 2 ^ 32 * k2 - hash + c))
    as [k3 ->].
  exists (32 * k1 + k2 + k3)%Z. lia.
Qed.

Lemma polynomial31_shift (str : string) : forall acc k,
  exists k', polynomial31 (acc + 2 ^ 32 * k) str = (polynomial31 acc str + 2 ^ 32 * k')%Z.
Proof.
  induction str as [|c str IH]; intros acc k; simpl.
  - by exists k.
  - replace (31 * (acc + 2 ^ 32 * k) + Z.of_nat (nat_of_ascii c))%Z
      with (31 * acc + Z.of_nat (nat_of_ascii c) + 2 ^ 32 * (31 * k))%Z by lia.
    apply IH.
Qed.

Lemma hashLoop_polynomial (str : string) : forall hash,
  (- 2 ^ 31 <= hash < 2 ^ 31)%Z ->
  Color.hashLoop hash str = Color.toInt32 (polynomial31 hash str).
Proof.
  induction str as [|c str IH]; intros hash Hrange; simpl.
  - by rewrite toInt32_small.
  - rewrite IH by apply toInt32_range.
    destruct (hashStep_wraps hash (Z.of_nat (nat_of_ascii c))) as [k ->].
    destruct (polynomial31_shift str (31 * hash + Z.of_nat (nat_of_ascii c)) k)
      as [k' ->].
    apply toInt32_shift.
Qed.

Lemma hashLoop_range (str : string) (hash : Z) :
  (- 2 ^ 31 <= hash < 2 ^ 31)%Z ->
  (- 2 ^ 31 <= Color.hashLoop hash str < 2 ^ 31)%Z.
Proof.
  intros Hrange. rewrite hashLoop_polynomial by done. apply toInt32_range.
Qed.

(** X16.  [hashString] is never negative and never above 2^31, whatever
    the length of the string (the 32-bit wrap-around included), and it is
    0 on the empty string; so the hue that [moduleToTruecolor] gives to
    [hslToRgb] is always one of 0, ..., 359. *)
Theorem hashString_range (str : string) (hslToRgb : Z -> Z * Z * Z) :
  (0 <= Color.hashString str <= 2 ^ 31)%Z
  /\ Color.hashString "" = 0%Z
  /\ exists hue r g b,
       hue = Z.rem (Color.hashString str) 360
       /\ (0 <= hue < 360)%Z
       /\ hslToRgb hue = (r, g, b)
       /\ Color.moduleToTruecolor hslToRgb str
          = Str.esc +:+ "[38;2;" +:+ pretty r +:+ ";" +:+ pretty g +:+ ";"
              +:+ pretty b +:+ "m".
Proof.
  assert (0 <= Color.hashString str <= 2 ^ 31)%Z as Hrange.
  { unfold Color.hashString.
    pose proof (hashLoop_range str 0 ltac:(lia)). lia. }
  assert (0 <= Z.rem (Color.hashString str) 360 < 360)%Z as Hhue.
  { rewrite Z.rem_mod_nonneg by lia. apply Z.mod_pos_bound. lia. }
  split_and!; [lia|lia|done|].
  unfold Color.moduleToTruecolor.
  destruct (hslToRgb (Z.rem (Color.hashString str) 360)) as [[r g] b] eqn:Hrgb.
  by exists (Z.rem (Color.hashString str) 360), r, g, b.
Qed.

(** X17.  [hashString] is the 32-bit polynomial hash of base 31: the
    absolute value of [c0 * 31^(n-1) + ... + c(n-1)] on the code units of
    the string, reduced modulo 2^32 into the signed range. *)
Theorem hashString_is_polynomial_hash (str : string) :
  Color.hashString str = Z.abs (Color.toInt32 (polynomial31 0 str)).
Proof.
  unfold Color.hashString. rewrite hashLoop_polynomial by lia. done.
Qed.

(** ** The lines of an error call in text mode *)

Section TextLines.

Variable env : Env.
Variable lg : Logger.

(** The text path of an error or fatal call, once the loop over the
    error-like values is known: the primary line, the lines of the loop,
    the stack section (its header under the prefix of the primary line),
    the exit. *)
Lemma logInternal_text_error_level h level message args ctx w evs n :
  String.eqb (outputFormat lg) "jsonl" = false ->
  (rank (logLevel lg) <= rank level)%Z ->
  isErrorLevel level = true ->
  (forall w1,
     forEach (omap (asError h) (message :: args)) (fun error =>
       logCauseChain env lg h level (fst error) ;;;
       match stack (snd error) with
       | Some s => when (Str.truthy s) (logStack env lg level s "  ")
       | None => ret tt
       end) w1
     = (Returned tt, advance w1 (evs (clockReads w1)) n 0)) ->
  logInternal env lg h level message args ctx w
  = (expectedOutcome level,
     advance w
       (Write (streamFor lg level) (primaryLine env lg h level message args w)
        :: evs (clockReads w + 1)
        ++ (if Str.truthy (nativeStackAt env w)
            then stackSection env lg level w (clockReads w + 1 + n) else [])
        ++ exitEvents level)
       (1 + n + (if Str.truthy (nativeStackAt env w) then 1 else 0)) 1).
Proof.
  intros Hfmt Hrank Herr Hloop. unfold logInternal.
  fold (rank level). fold (rank (logLevel lg)).
  apply Z.ltb_ge in Hrank. rewrite Hrank, Hfmt.
  unfold bind at 1. rewrite buildPrefix_run.
  unfold bind at 1. rewrite writeLine_run, advance_advance.
  fold (isErrorLevel level). fold (primaryLine env lg h level message args w).
  unfold bind at 1. rewrite Herr. simpl.
  unfold bind at 1. rewrite Hloop.
  unfold bind at 1.
  rewrite captureStack_run, !advance_advance, nativeStackAt_advance.
  destruct (Str.truthy (nativeStackAt env w)) eqn:Hns; simpl.
  - unfold bind at 1. rewrite writeLine_run, logStack_run, !advance_advance.
    rewrite finish_run. simpl. unfold stackSection.
    replace (clockReads w + S (n + 0 + 0)) with (clockReads w + 1 + n) by lia.
    replace (S (n + 0 + 1)) with (S (n + 1)) by lia.
    by rewrite app_nil_r, <- app_assoc.
  - rewrite finish_run. simpl.
    replace (S (n + 0)) with (S (n + 0 + 0)) by lia.
    by rewrite !app_nil_r.
Qed.

End TextLines.

(** X10.  The lines of an error or fatal call in text mode whose one
    argument is an error, in order: the primary line, with the display
    message of the error after the message; one "Caused by" line per
    cause of the chain; the lines of the error's own stack, when it has
    one; the "Stack trace:" header, under the prefix of the primary line,
    and the lines of the native stack, when there is one; then the exit,
    for fatal.  Each group reads the clock once. *)
Theorem error_call_lines env lg h level message l e w :
  String.eqb (outputFormat lg) "jsonl" = false ->
  (rank (logLevel lg) <= rank level)%Z ->
  isErrorLevel level = true ->
  asError h message = None ->
  h !! l = Some (OError e) ->
  exists chain,
    getErrorCauses h l = Some chain
    /\ primaryLine env lg h level message [VRef l] w
       = (prefixAt lg (toISOString env (clockReads w)) level
            +:+ formatValue env lg h message +:+ " " +:+ formatErrorMessage e)
         +:+ Str.nl
    /\ logInternal env lg h level message [VRef l] None w
       = (expectedOutcome level,
          advance w
            (Write (streamFor lg level) (primaryLine env lg h level message [VRef l] w)
             :: (causeLines env lg level chain (clockReads w + 1)
                 ++ (if Str.truthy (default "" (stack e))
                     then stackLines env lg level (default "" (stack e)) "  "
                            (clockReads w + 1 + 1)
                     else []))
             ++ (if Str.truthy (nativeStackAt env w)
                 then stackSection env lg level w
                        (clockReads w + 1
                         + (1 + if Str.truthy (default "" (stack e)) then 1 else 0))
                 else [])
             ++ exitEvents level)
            (1 + (1 + if Str.truthy (default "" (stack e)) then 1 else 0)
             + (if Str.truthy (nativeStackAt env w) then 1 else 0)) 1).
Proof.
  intros Hfmt Hrank Herr Hmessage Hl.
  destruct (getErrorCauses_total h l) as (chain & Hchain & _).
  exists chain. split_and!; [done| |].
  - unfold primaryLine, formatArgs, formatValue at 2, asError. simpl. by rewrite Hl.
  - apply (logInternal_text_error_level env lg h level message [VRef l] None w
             (fun c => causeLines env lg level chain c
                       ++ (if Str.truthy (default "" (stack e))
                           then stackLines env lg level (default "" (stack e)) "  " (c + 1)
                           else []))); [done|done|done|].
    intros w1. simpl. rewrite Hmessage, Hl. simpl.
    destruct (logCauseChain_run env lg h level l w1) as (chain' & Hchain' & Hrun).
    assert (chain' = chain) as -> by congruence.
    unfold bind at 1. unfold bind at 1. rewrite Hrun.
    fold (causeLines env lg level chain (clockReads w1)).
    destruct (stack e) as [s|]; simpl; [destruct (Str.truthy s); simpl|].
    + rewrite logStack_run, ret_run, !advance_advance. simpl.
      unfold stackLines. by rewrite ?app_nil_r.
    + rewrite !ret_run, ?advance_advance. by rewrite ?app_nil_r.
    + rewrite !ret_run, ?advance_advance. by rewrite ?app_nil_r.
Qed.

Lemma error_call_lines_witness :
  written (trace (logInternal sampleEnv (sampleLogger "text" "info") diskFullHeap "error"
                    (VString "save failed") [VRef 1] None initialWorld).2)
  = map (fun line => line +:+ Str.nl)
      ["2024-01-01T00:00:00.000Z  [ERROR]  save failed disk full";
       "2024-01-01T00:00:01.000Z  [ERROR]    Caused by: quota";
       "2024-01-01T00:00:02.000Z  [ERROR]    Error: disk full";
       "2024-01-01T00:00:02.000Z  [ERROR]        at write";
       "2024-01-01T00:00:00.000Z  [ERROR]    Stack trace:";
       "2024-01-01T00:00:03.000Z  [ERROR]        at captureNativeStack";
       "2024-01-01T00:00:03.000Z  [ERROR]        at main"].
Proof.
  destruct (error_call_lines sampleEnv (sampleLogger "text" "info") diskFullHeap "error"
              (VString "save failed") 1
              (mkError "Error" (Some "disk full")
                 (Some (Str.join Str.nl ["Error: disk full"; "    at write"])) (VRef 0))
              initialWorld) as (chain & Hchain & _ & Hrun);
    [reflexivity|by vm_compute|reflexivity|reflexivity|reflexivity|].
  rewrite Hrun. vm_compute in Hchain. injection Hchain as <-. reflexivity.
Defined.

(** ** Timers *)

Lemma expectedProps_duration lg h timestamp nativeStack level message args context
    argsRef errorsRef :
  getKey "duration"
    (expectedProps lg h timestamp nativeStack level message args context argsRef errorsRef)
  = VString <$> (context ≫= duration)
  /\ getKey "durationMs"
       (expectedProps lg h timestamp nativeStack level message args context argsRef errorsRef)
     = VNumber <$> (context ≫= durationMs).
Proof.
  unfold expectedProps; rewrite ?getKey_app;
    destruct (Str.truthy (module lg));
    destruct (Nat.ltb 0 (List.length args));
    destruct (context ≫= duration) as [d|];
    destruct (context ≫= durationMs) as [ms|];
    destruct (isErrorLevel level);
    destruct (existsb (isError h) (message :: args));
    simpl; done.
Qed.

(** A text-mode call below [error] that passes the filter: one reading
    of the clock, one chunk. *)
Lemma logInternal_text_below_error env lg h level message args ctx w :
  String.eqb (outputFormat lg) "jsonl" = false ->
  (rank (logLevel lg) <= rank level)%Z ->
  isErrorLevel level = false ->
  logInternal env lg h level message args ctx w
  = (Returned tt,
     advance w [Write (streamFor lg level) (primaryLine env lg h level message args w)] 1 0).
Proof.
  intros Hfmt Hrank Herr. unfold logInternal.
  fold (rank level). fold (rank (logLevel lg)).
  apply Z.ltb_ge in Hrank. rewrite Hrank, Hfmt.
  unfold bind at 1. rewrite buildPrefix_run.
  unfold bind at 1. rewrite writeLine_run, advance_advance.
  fold (isErrorLevel level). rewrite Herr. simpl.
  unfold bind at 1. rewrite ret_run.
  assert (String.eqb level "fatal" = false) as ->.
  { unfold isErrorLevel in Herr. by apply orb_false_iff in Herr as [_ ?]. }
  by rewrite ret_run.
Qed.

Section TimerProperties.

Variable clock : Clock.
Variable env : Env.
Variable lg : Logger.
Variable tm : Timer clock.

(** X18.  In JSON mode a timer call hands the message and the arguments
    to the logger as they are, with a context that holds both duration
    fields: the record of the line has [duration], the formatted elapsed
    time, and [durationMs], the rounded elapsed time, both taken from the
    one reading of the clock, and the line is written (or not) as for any
    other record. *)
Theorem timer_json_record now h level message args w :
  isJsonlOutput lg = true ->
  (rank (logLevel lg) <= rank level)%Z ->
  exists record h' w1 props,
    buildJsonRecord env lg h level message args
      (Some (mkContext
               (Some (formatDuration clock (subtract clock now (startTime clock tm))
                        (format clock tm)))
               (Some (mathRound clock (subtract clock now (startTime clock tm)))))) w
    = (Returned (record, h'), w1)
    /\ h' !! record = Some (OPlain props)
    /\ getKey "message" props = Some message
    /\ getKey "duration" props
       = Some (VString (formatDuration clock (subtract clock now (startTime clock tm))
                          (format clock tm)))
    /\ getKey "durationMs" props
       = Some (VNumber (mathRound clock (subtract clock now (startTime clock tm))))
    /\ timerLog clock env lg tm now h level message args w
       = match stringifyJsonRecord env h' record with
         | Returned line =>
             (expectedOutcome level,
              advance w1 (Write (streamFor lg level) (template line +:+ Str.nl)
                          :: exitEvents level) 0 0)
         | Threw exc => (Threw exc, w1)
         | Exited => (Exited, w1)
         | OutOfFuel => (OutOfFuel, w1)
         end.
Proof.
  intros Hjson Hrank. unfold timerLog. rewrite Hjson.
  unfold getElapsedDuration, logWithContext. simpl.
  match goal with
  | |- context [buildJsonRecord env lg h level message args ?c w] => set (ctx := c)
  end.
  destruct (logInternal_json env lg h level message args ctx w Hjson Hrank)
    as (record & h' & w1 & Hbuild & _ & Hrun).
  destruct (buildJsonRecord_run env lg h level message args ctx w)
    as (argsRef & errorsRef & h0 & record0 & Hbuild0 & -> & _).
  rewrite Hbuild0 in Hbuild. injection Hbuild as <- <- <-.
  eexists _, _, _, _. split; [exact Hbuild0|].
  split; [apply lookup_snoc|].
  split; [apply props_fixed_keys|].
  split; [apply expectedProps_duration|].
  split; [apply expectedProps_duration|].
  exact Hrun.
Qed.

Lemma timer_text_primary now h level message args w :
  primaryLine env lg h level (VString (prependDurationTag clock env lg tm now h message))
    args w
  = (prefixAt lg (toISOString env (clockReads w)) level
       +:+ formatDurationTag lg
             (formatDuration clock (subtract clock now (startTime clock tm)) (format clock tm))
       +:+ " "
       +:+ match message with
           | VString s => s
           | _ => inspect env h message 10 false
           end
       +:+ formatArgs env lg h args) +:+ Str.nl.
Proof.
  unfold primaryLine, prependDurationTag, getElapsedDuration. simpl.
  by rewrite !append_assoc.
Qed.

(** X19.  In text mode a timer call is a call of the logger with a
    string for the message: the duration tag, one space, then the message
    (as it is when it is a string, inspected with colours off otherwise),
    right after the prefix.  The filter of the logger applies.  As the
    message is a string by then, an error given as the message of
    [timer.error] or [timer.fatal] adds no "Caused by" line and no stack
    of its own: without arguments, only the stack section follows. *)
Theorem timer_text_line now h level message args w :
  isJsonlOutput lg = false ->
  ((rank level < rank (logLevel lg))%Z ->
   timerLog clock env lg tm now h level message args w = (Returned tt, w))
  /\ ((rank (logLevel lg) <= rank level)%Z ->
      exists extra n k,
        timerLog clock env lg tm now h level message args w
        = (expectedOutcome level,
           advance w
             (Write (streamFor lg level)
                ((prefixAt lg (toISOString env (clockReads w)) level
                    +:+ formatDurationTag lg
                          (formatDuration clock (subtract clock now (startTime clock tm))
                             (format clock tm))
                    +:+ " "
                    +:+ match message with
                        | VString s => s
                        | _ => inspect env h message 10 false
                        end
                    +:+ formatArgs env lg h args) +:+ Str.nl)
              :: extra ++ exitEvents level) n k)
        /\ Forall (writesTo (streamFor lg level)) extra
        /\ (isErrorLevel level = false -> extra = [])
        /\ (isErrorLevel level = true -> args = [] ->
            extra = if Str.truthy (nativeStackAt env w)
                    then stackSection env lg level w (clockReads w + 1) else [])).
Proof.
  intros Hjson. unfold timerLog. rewrite Hjson. unfold log. split.
  - intros Hlt. by apply logInternal_filtered.
  - intros Hrank. rewrite <- timer_text_primary.
    destruct (isErrorLevel level) eqn:Herr; [destruct args as [|arg args]|].
    + rewrite (logInternal_text_error_level env lg h level _ [] None w (fun _ => []) 0);
        [|done|done|done|].
      * eexists _, _, _. split; [reflexivity|].
        split_and!; [|discriminate|intros _ _; by rewrite Nat.add_0_r].
        destruct (Str.truthy (nativeStackAt env w)); [|constructor].
        unfold stackSection. constructor; [by eexists|]. apply Forall_writesTo_map.
      * intros w1. simpl. by rewrite ret_run, advance_nil.
    + destruct (logInternal_text env lg h level
                  (VString (prependDurationTag clock env lg tm now h message))
                  (arg :: args) None w Hjson Hrank)
        as (extra & n & k & Hrun & Hextra & _).
      exists extra, n, k. by split_and!.
    + rewrite logInternal_text_below_error by done.
      exists [], 1, 0. split_and!; [|constructor|done|discriminate].
      unfold expectedOutcome, exitEvents.
      assert (String.eqb level "fatal" = false) as ->; [|done].
      unfold isErrorLevel in Herr. by apply orb_false_iff in Herr as [_ ?].
Qed.

(** X20.  With the format "raw" the text of the duration is the rounded
    number of milliseconds followed by "ms": in JSON mode [duration] is
    [durationMs] with the unit, and in text mode the tag holds the same
    digits. *)
Theorem raw_timer_duration now h level message args z :
  format clock tm = "raw" ->
  mathRound clock (subtract clock now (startTime clock tm)) = NumInt z ->
  safeInteger (NumInt z) ->
  (getElapsedDuration clock tm now).2 = pretty z +:+ "ms"
  /\ (isJsonlOutput lg = true ->
      timerLog clock env lg tm now h level message args
      = logWithContext env lg h level message args
          (Some (mkContext (Some (pretty z +:+ "ms")) (Some (NumInt z)))))
  /\ (isJsonlOutput lg = false ->
      timerLog clock env lg tm now h level message args
      = log env lg h level
          (VString (formatDurationTag lg (pretty z +:+ "ms") +:+ " "
                      +:+ match message with
                          | VString s => s
                          | _ => inspect env h message 10 false
                          end)) args).
Proof.
  intros Hformat Hround _.
  assert ((getElapsedDuration clock tm now).2 = pretty z +:+ "ms") as Htext.
  { unfold getElapsedDuration, formatDuration. simpl. by rewrite Hformat, Hround. }
  split_and!; [done| |].
  - intros Hjson. unfold timerLog. rewrite Hjson.
    unfold getElapsedDuration in *. simpl in *. by rewrite Htext, Hround.
  - intros Hjson. unfold timerLog, prependDurationTag. rewrite Hjson.
    unfold getElapsedDuration in *. simpl in *. by rewrite Htext.
Qed.

End TimerProperties.

Lemma timer_json_record_witness :
  exists record h' w1 props,
    buildJsonRecord sampleEnv jsonLogger [] "info" (VString "done") []
      (Some (mkContext (Some "1s 234ms") (Some (NumInt 1234)))) initialWorld
    = (Returned (record, h'), w1)
    /\ h' !! record = Some (OPlain props)
    /\ getKey "duration" props = Some (VString "1s 234ms")
    /\ getKey "durationMs" props = Some (VNumber (NumInt 1234)).
Proof.
  destruct (timer_json_record sampleClock sampleEnv jsonLogger narrowTimer
              (5937 # 4)%Q [] "info" (VString "done") [] initialWorld)
    as (record & h' & w1 & props & Hbuild & Hrecord & _ & Hduration & Hms & _);
    [reflexivity|by vm_compute|].
  by exists record, h', w1, props.
Defined.

Lemma timer_text_line_witness :
  timerLog sampleClock sampleEnv (sampleLogger "text" "warn") narrowTimer (5937 # 4)%Q
    [] "info" (VString "done") [] initialWorld
  = (Returned tt, initialWorld)
  /\ written (trace (timerLog sampleClock sampleEnv (sampleLogger "text" "info") narrowTimer
                       (5937 # 4)%Q [] "info" (VString "done") [VString "ok"]
                       initialWorld).2)
     = ["2024-01-01T00:00:00.000Z  [INFO]   [1s 234ms] done ok" +:+ Str.nl].
Proof.
  split.
  - destruct (timer_text_line sampleClock sampleEnv (sampleLogger "text" "warn") narrowTimer
                (5937 # 4)%Q [] "info" (VString "done") [] initialWorld) as [Hdrop _];
      [reflexivity|].
    apply Hdrop. by vm_compute.
  - destruct (timer_text_line sampleClock sampleEnv (sampleLogger "text" "info") narrowTimer
                (5937 # 4)%Q [] "info" (VString "done") [VString "ok"] initialWorld)
      as [_ Hline]; [reflexivity|].
    destruct Hline as (extra & n & k & Hrun & _ & Hextra & _); [by vm_compute|].
    rewrite Hrun, Hextra by reflexivity. reflexivity.
Defined.

Lemma raw_timer_duration_witness :
  (getElapsedDuration sampleClock rawTimer (5937 # 4)%Q).2 = "1234ms".
Proof.
  destruct (raw_timer_duration sampleClock sampleEnv jsonLogger rawTimer (5937 # 4)%Q
              [] "info" (VString "done") [] 1234) as (Htext & _);
    [reflexivity|reflexivity|by vm_compute|].
  exact Htext.
Defined.

(** ** One record, one line *)

Lemma oneLine_append (s1 s2 : string) :
  oneLine (s1 +:+ s2) = oneLine s1 && oneLine s2.
Proof.
  induction s1 as [|c s1 IH]; [done|].
  change (String c s1 +:+ s2) with (String c (s1 +:+ s2)). simpl.
  by rewrite IH, andb_assoc.
Qed.

Lemma oneLine_join (sep : string) (pieces : list string) :
  oneLine sep = true -> Forall (fun s => oneLine s = true) pieces ->
  oneLine (Str.join sep pieces) = true.
Proof.
  intros Hsep Hall. induction Hall as [|s pieces Hs Hall IH]; [done|].
  destruct pieces as [|s' pieces]; [done|].
  rewrite join_cons by done. rewrite !oneLine_append, Hs, Hsep, IH. done.
Qed.

Lemma oneLine_quoteChar (c : ascii) : oneLine (JSON.quoteChar c) = true.
Proof. by destruct c as [[] [] [] [] [] [] [] []]. Qed.

Lemma oneLine_quote (s : string) : oneLine (JSON.quote s) = true.
Proof.
  unfold JSON.quote. rewrite !oneLine_append. simpl.
  rewrite andb_true_r. induction s as [|c s IH]; [done|].
  simpl. by rewrite oneLine_append, oneLine_quoteChar, IH.
Qed.

Lemma pretty_N_char_not_newline (d : N) :
  Ascii.eqb (pretty_N_char d) Str.newline = false.
Proof. unfold pretty_N_char. by repeat case_match. Qed.

Lemma oneLine_pretty_N_go (x : N) : forall s,
  oneLine s = true -> oneLine (pretty_N_go x s) = true.
Proof.
  induction (N.lt_wf_0 x) as [x _ IH]. intros s Hs.
  destruct (decide (x = 0%N)) as [->|Hx].
  - by rewrite pretty_N_go_0.
  - rewrite pretty_N_go_step by lia. apply IH.
    + apply N.div_lt; lia.
    + simpl. by rewrite pretty_N_char_not_newline.
Qed.

Lemma oneLine_pretty_N (x : N) : oneLine (pretty x) = true.
Proof.
  unfold pretty, pretty_N. case_decide; [done|]. by apply oneLine_pretty_N_go.
Qed.

Lemma oneLine_pretty_Z (z : Z) : oneLine (pretty z) = true.
Proof.
  destruct z as [|p|p]; [done| |].
  - apply (oneLine_pretty_N (N.pos p)).
  - change (pretty (Z.neg p)) with ("-" +:+ pretty (N.pos p)).
    rewrite oneLine_append. simpl. apply oneLine_pretty_N.
Qed.

Lemma oneLine_numberToJSON (n : number) : oneLine (JSON.numberToJSON n) = true.
Proof. destruct n; simpl; [apply oneLine_pretty_Z|done|done]. Qed.

Lemma oneLine_object (partial : list string) :
  Forall (fun s => oneLine s = true) partial -> oneLine (JSON.object partial) = true.
Proof.
  intros Hall. unfold JSON.object. rewrite !oneLine_append.
  by rewrite oneLine_join.
Qed.

Lemma oneLine_array (partial : list string) :
  Forall (fun s => oneLine s = true) partial -> oneLine (JSON.array partial) = true.
Proof.
  intros Hall. unfold JSON.array. rewrite !oneLine_append.
  by rewrite oneLine_join.
Qed.

Section OneLine.

Context {St : Type} (replacer : JSON.Replacer St).

Lemma serializeElements_oneLine
    (child : string -> Value -> Heap * St -> Outcome (option string * (Heap * St))) :
  childOneLine child ->
  forall items index partial st partial' st',
    Forall (fun s => oneLine s = true) partial ->
    JSON.serializeElements child index items partial st = Returned (partial', st') ->
    Forall (fun s => oneLine s = true) partial'.
Proof.
  intros Hchild. induction items as [|item items IH];
    intros index partial st partial' st' Hpartial Hrun; simpl in Hrun.
  - by injection Hrun as <- <-.
  - destruct (child (pretty index) item st) as [[strP st1]| | |] eqn:Hitem; try done.
    apply IH in Hrun; [done|].
    apply Forall_app. split; [done|]. constructor; [|done].
    destruct strP as [str|]; [|done]. by eapply Hchild.
Qed.

Lemma serializeMembers_oneLine
    (child : string -> Value -> Heap * St -> Outcome (option string * (Heap * St))) :
  childOneLine child ->
  forall props partial st partial' st',
    Forall (fun s => oneLine s = true) partial ->
    JSON.serializeMembers child props partial st = Returned (partial', st') ->
    Forall (fun s => oneLine s = true) partial'.
Proof.
  intros Hchild. induction props as [|[P item] props IH];
    intros partial st partial' st' Hpartial Hrun; simpl in Hrun.
  - by injection Hrun as <- <-.
  - destruct (child P item st) as [[[str|] st1]| | |] eqn:Hitem; try done.
    + apply IH in Hrun; [done|].
      apply Forall_app. split; [done|]. constructor; [|done].
      unfold JSON.member. rewrite !oneLine_append, oneLine_quote. simpl.
      by eapply Hchild.
    + by apply IH in Hrun.
Qed.

(** Whatever the replacer, the text of [SerializeJSONProperty] has no
    line feed: strings are quoted, and the quoting escapes the line feed. *)
Lemma serializeProperty_oneLine :
  forall fuel stack holder,
    childOneLine (JSON.serializeProperty replacer fuel stack holder).
Proof.
  induction fuel as [|fuel IH]; intros stack holder key value st str st' Hrun; [done|].
  rewrite serializeProperty_unfold in Hrun.
  destruct (replacer (Some holder) key value st) as [[v st1]|]; [|done].
  destruct v as [| |[]|n|s|z|d|f|l]; try done;
    try (injection Hrun as <- <-; done).
  - injection Hrun as <- <-. apply oneLine_numberToJSON.
  - injection Hrun as <- <-. apply oneLine_quote.
  - destruct (existsb (Nat.eqb l) stack); [done|].
    destruct (st1.1 !! l) as [[e|props|items]|].
    + by injection Hrun as <- <-.
    + destruct (JSON.serializeMembers _ props [] st1) as [[partial st2]| | |] eqn:Hmembers;
        try done.
      injection Hrun as <- <-. apply oneLine_object.
      eapply serializeMembers_oneLine; [apply IH|constructor|exact Hmembers].
    + destruct (JSON.serializeElements _ 0 items [] st1) as [[partial st2]| | |]
        eqn:Helements; try done.
      injection Hrun as <- <-. apply oneLine_array.
      eapply serializeElements_oneLine; [apply IH|constructor|exact Helements].
    + by injection Hrun as <- <-.
Qed.

Lemma stringify_oneLine h value s0 line :
  JSON.stringify replacer h value s0 = Returned line ->
  oneLine (template line) = true.
Proof.
  unfold JSON.stringify. simpl.
  destruct (JSON.serializeProperty _ _ _ _ _ _ _) as [[str st]| | |] eqn:Hrun; try done.
  intros [= <-]. destruct str as [str|]; [|done].
  by eapply serializeProperty_oneLine.
Qed.

End OneLine.

(** X15.  One record, one line.  In JSON mode a call writes at most one
    chunk, and the chunk is one line: the JSON text has no line feed
    inside (those of the strings are escaped by the quoting), and one line
    feed ends it.  This holds for every message and every argument. *)
Theorem json_record_is_one_line env lg h level message args context w :
  String.eqb (outputFormat lg) "jsonl" = true ->
  exists evs,
    trace (logInternal env lg h level message args context w).2 = trace w ++ evs
    /\ List.length (written evs) <= 1
    /\ forall s chunk,
         Write s chunk ∈ evs ->
         exists line, chunk = line +:+ Str.nl /\ oneLine line = true.
Proof.
  intros Hfmt.
  destruct (Z.lt_ge_cases (rank level) (rank (logLevel lg))) as [Hlt|Hge].
  - rewrite logInternal_filtered by done. exists []. rewrite app_nil_r.
    split_and!; [done|simpl; lia|]. intros s chunk Hin. by apply elem_of_nil in Hin.
  - destruct (logInternal_json env lg h level message args context w Hfmt Hge)
      as (record & h' & w1 & _ & Htrace & ->).
    destruct (stringifyJsonRecord env h' record) as [line| | |] eqn:Hline; simpl.
    + rewrite Htrace. eexists. split; [reflexivity|].
      split.
      * simpl. rewrite written_exitEvents. simpl. lia.
      * intros s chunk Hin. apply elem_of_cons in Hin as [Hin|Hin].
        -- injection Hin as -> ->. eexists. split; [done|].
           by eapply stringify_oneLine.
        -- unfold exitEvents in Hin. destruct (String.eqb level "fatal").
           ++ apply list_elem_of_singleton in Hin. done.
           ++ by apply elem_of_nil in Hin.
    + exists []. rewrite app_nil_r. split_and!; [done|simpl; lia|].
      intros s chunk Hin. by apply elem_of_nil in Hin.
    + exists []. rewrite app_nil_r. split_and!; [done|simpl; lia|].
      intros s chunk Hin. by apply elem_of_nil in Hin.
    + exists []. rewrite app_nil_r. split_and!; [done|simpl; lia|].
      intros s chunk Hin. by apply elem_of_nil in Hin.
Qed.

Lemma json_record_is_one_line_witness :
  exists evs,
    trace (logInternal sampleEnv jsonLogger twoLinesHeap "info"
             (VString ("first" +:+ Str.nl +:+ "second")) [VRef 0] None initialWorld).2
    = trace initialWorld ++ evs
    /\ List.length (written evs) <= 1
    /\ forall s chunk,
         Write s chunk ∈ evs ->
         exists line, chunk = line +:+ Str.nl /\ oneLine line = true.
Proof. apply json_record_is_one_line. reflexivity. Defined.

(** ** The ways a JSON call ends *)



(** X14.  On a heap without [Error] objects, while the [ancestors] array
    mirrors the stack of [JSON.stringify], the replacer marks exactly the
    back-edges: a reference to an object that is being serialized becomes
    the string "[Circular]", and a reference to any other object (one
    already written as a sibling included) is left as it is and pushed. *)
Theorem replacer_marks_exactly_back_edges env h stack holder ancestors key l :
  noErrors h ->
  mirrors stack ancestors ->
  holds stack holder ancestors ->
  replacer env (Some holder) key (VRef l) (h, ancestors)
  = Some (if bool_decide (l ∈ stack)
          then (VString "[Circular]", (h, reverse stack))
          else (VRef l, (h, l :: reverse stack))).
Proof.
  intros Hno Hmirrors Hholds.
  rewrite replacer_noErrors by done.
  rewrite (popAncestors_mirrors stack holder ancestors) by done.
  destruct (existsb (Nat.eqb l) (reverse stack)) eqn:Hin.
  - apply existsb_eqb_elem in Hin. rewrite elem_of_reverse in Hin.
    rewrite bool_decide_eq_true_2 by done. done.
  - rewrite bool_decide_eq_false_2; [done|].
    intros Hl. rewrite <- elem_of_reverse in Hl.
    apply existsb_eqb_elem in Hl. congruence.
Qed.

Lemma replacer_marks_exactly_back_edges_witness :
  replacer sampleEnv (Some 0) "self" (VRef 0) (plainCycleHeap, [0])
  = Some (VString "[Circular]", (plainCycleHeap, [0]))
  /\ replacer sampleEnv (Some 1) "1" (VRef 0) (traceHeap ++ [OArray [VRef 0; VRef 0]], [0; 1])
     = Some (VRef 0, (traceHeap ++ [OArray [VRef 0; VRef 0]], [0; 1])).
Proof.
  split.
  - apply (replacer_marks_exactly_back_edges sampleEnv plainCycleHeap [0] 0 [0] "self" 0).
    + repeat constructor. intros e. discriminate.
    + exists []. split; [reflexivity|]. intros x Hx. by apply elem_of_nil in Hx.
    + reflexivity.
  - apply (replacer_marks_exactly_back_edges sampleEnv
             (traceHeap ++ [OArray [VRef 0; VRef 0]]) [1] 1 [0; 1] "1" 0).
    + repeat constructor; intros e; discriminate.
    + exists [0]. split; [reflexivity|]. intros x Hx.
      apply list_elem_of_singleton in Hx as ->. intros Hin.
      by apply list_elem_of_singleton in Hin.
    + reflexivity.
Defined.

(** ** The serialized error *)

Lemma causeEntries_allocated (rest : list Obj) (chain : list (loc * ErrorObj)) :
  forall before : Heap,
    Forall2 (fun r c => (before ++ map causeEntry chain ++ rest) !! r
                        = Some (causeEntry c))
            (seq (List.length before) (List.length chain)) chain.
Proof.
  induction chain as [|c chain IH]; intros before; simpl; [constructor|].
  constructor.
  - by rewrite list_lookup_middle.
  - specialize (IH (before ++ [causeEntry c])).
    rewrite length_app in IH. simpl in IH.
    replace (List.length before + 1) with (S (List.length before)) in IH by lia.
    eapply Forall2_impl; [exact IH|].
    intros r c' Hr. simpl in Hr. by rewrite <- app_assoc in Hr.
Qed.

(** X11.  [serializeError] creates new objects and leaves the heap it is
    given as it is.  The object it returns holds [name] (never empty) and
    [message] (the display message); [stack] exactly when the error has a
    non-empty stack; and [causes] exactly when the cause chain is not
    empty, an array with one entry per error of the chain, in the order of
    the chain. *)
Theorem serializeError_shape (h : Heap) (l : loc) (e : ErrorObj) :
  exists chain d ext props,
    getErrorCauses h l = Some chain
    /\ serializeError h l e = Some (d, h ++ ext)
    /\ List.length h <= d
    /\ (h ++ ext) !! d = Some (OPlain props)
    /\ getKey "name" props = Some (VString (Str.orElse (name e) "Error"))
    /\ Str.orElse (name e) "Error" <> ""
    /\ getKey "message" props = Some (VString (formatErrorMessage e))
    /\ getKey "stack" props
       = (if Str.truthy (default "" (stack e))
          then Some (VString (default "" (stack e))) else None)
    /\ (chain = [] -> getKey "causes" props = None)
    /\ (chain <> [] ->
        exists arr entries,
          getKey "causes" props = Some (VRef arr)
          /\ (h ++ ext) !! arr = Some (OArray (map VRef entries))
          /\ Forall2 (fun r c => (h ++ ext) !! r = Some (causeEntry c)) entries chain).
Proof.
  destruct (getErrorCauses_total h l) as (chain & Hchain & _).
  exists chain. unfold serializeError. rewrite Hchain.
  set (details :=
         match stack e with
         | Some s => if Str.truthy s
                     then [("name", VString (Str.orElse (name e) "Error"));
                           ("message", VString (formatErrorMessage e))]
                          ++ [("stack", VString s)]
                     else [("name", VString (Str.orElse (name e) "Error"));
                           ("message", VString (formatErrorMessage e))]
         | None => [("name", VString (Str.orElse (name e) "Error"));
                    ("message", VString (formatErrorMessage e))]
         end).
  assert (getKey "name" details = Some (VString (Str.orElse (name e) "Error"))
          /\ getKey "message" details = Some (VString (formatErrorMessage e))
          /\ getKey "stack" details
             = (if Str.truthy (default "" (stack e))
                then Some (VString (default "" (stack e))) else None)
          /\ getKey "causes" details = None) as (Hname & Hmessage & Hstack & Hcauses).
  { unfold details. destruct (stack e) as [s|]; simpl; [|done].
    destruct (Str.truthy s); done. }
  assert (Str.orElse (name e) "Error" <> "") as Hnonempty
    by (by apply orElse_nonempty).
  destruct chain as [|c chain].
  - simpl. exists (List.length h), [OPlain details], details.
    split_and!; try done.
    + apply lookup_snoc.
  - change (Nat.ltb 0 (List.length (c :: chain))) with true. cbv iota.
    rewrite allocAll_app. unfold alloc.
    rewrite !length_app, length_map. simpl List.length.
    exists (List.length h + S (List.length chain) + 1),
      (map causeEntry (c :: chain)
         ++ [OArray (map VRef (seq (List.length h) (S (List.length chain))))]
         ++ [OPlain (details ++ [("causes", VRef (List.length h + S (List.length chain)))])]),
      (details ++ [("causes", VRef (List.length h + S (List.length chain)))]).
    split_and!.
    + done.
    + rewrite !app_assoc. reflexivity.
    + lia.
    + rewrite !app_assoc.
      match goal with
      | |- (?xs ++ [?x]) !! _ = _ =>
          replace (List.length h + S (List.length chain) + 1) with (List.length xs);
            [apply lookup_snoc|]
      end.
      rewrite !length_app, length_map. simpl. lia.
    + rewrite getKey_app. by rewrite Hname.
    + done.
    + rewrite getKey_app. by rewrite Hmessage.
    + rewrite getKey_app. rewrite Hstack.
      by destruct (Str.truthy (default "" (stack e))).
    + done.
    + intros _. eexists _, _. split_and!.
      * rewrite getKey_app, Hcauses. reflexivity.
      * rewrite (app_assoc h), (app_assoc (h ++ _)).
        rewrite lookup_app_l.
        -- match goal with
           | |- (?xs ++ [?x]) !! _ = _ =>
               replace (List.length h + S (List.length chain)) with (List.length xs);
                 [apply lookup_snoc|]
           end.
           rewrite !length_app, length_map. simpl. lia.
        -- rewrite !length_app, length_map. simpl. lia.
      * apply (causeEntries_allocated _ (c :: chain) h).
Qed.

(** ** The module label *)

Lemma expectedProps_module lg h timestamp nativeStack level message args context
    argsRef errorsRef :
  getKey "module"
    (expectedProps lg h timestamp nativeStack level message args context argsRef errorsRef)
  = if Str.truthy (module lg) then Some (VString (module lg)) else None.
Proof.
  unfold expectedProps; rewrite ?getKey_app;
    destruct (Str.truthy (module lg));
    destruct (Nat.ltb 0 (List.length args));
    destruct (context ≫= duration) as [d|];
    destruct (context ≫= durationMs) as [ms|];
    destruct (isErrorLevel level);
    destruct (existsb (isError h) (message :: args));
    simpl; done.
Qed.

(** X12.  [setModule] changes the label and the colour that goes with it
    and nothing else.  From then on the record of a JSON call holds the
    new label under [module], or no [module] at all when the label is
    empty; and the prefix of a text line ends with the new tag and one
    space, or has no tag. *)
Theorem setModule_changes_the_label env lg label :
  module (setModule env lg label) = label
  /\ moduleColor (setModule env lg label)
     = (if Str.truthy label
        then if useTruecolor lg then moduleToTruecolor env label else COLORS.magenta
        else "")
  /\ logLevel (setModule env lg label) = logLevel lg
  /\ (forall level, streamFor (setModule env lg label) level = streamFor lg level)
  /\ (forall iso level,
        prefixAt (setModule env lg label) iso level
        = colorize lg iso COLORS.dim +:+ "  "
            +:+ colorize lg (Str.padEnd 7 ("[" +:+ Str.toUpperCase level +:+ "]"))
                  (template (LEVEL_COLORS level))
            +:+ "  "
            +:+ (if Str.truthy label
                 then colorize lg ("[" +:+ label +:+ "]")
                        (if useTruecolor lg then moduleToTruecolor env label
                         else COLORS.magenta) +:+ " "
                 else ""))
  /\ (forall h level message args context w,
        exists record h' w' props,
          buildJsonRecord env (setModule env lg label) h level message args context w
          = (Returned (record, h'), w')
          /\ h' !! record = Some (OPlain props)
          /\ getKey "module" props
             = if Str.truthy label then Some (VString label) else None).
Proof.
  split_and!; try done.
  - simpl. unfold computeModuleColor. by destruct (Str.truthy label).
  - intros iso level. unfold prefixAt, colorize. simpl. unfold computeModuleColor.
    by destruct (Str.truthy label).
  - intros h level message args context w.
    destruct (buildJsonRecord_run env (setModule env lg label) h level message args
                context w)
      as (argsRef & errorsRef & h0 & record & Hbuild & -> & _).
    eexists _, _, _, _. split; [exact Hbuild|].
    split; [apply lookup_snoc|]. apply expectedProps_module.
Qed.
